(** * sitemap-to-xml: the sanitizer, the extractor and the CSV serializer

    A shallow embedding of the logic of the sitemap converter page
    ([cleanXmlContent], [parseSitemap], [downloadCSV]) and the theorems that
    settle the claims of its specification.

    Strings are JavaScript strings: finite sequences of UTF-16 code units,
    here [list N].  The DOM is a finite tree of element, text and comment
    nodes; the platform's XML parser is a parameter of the text-level
    functions. *)

From Stdlib Require Import String Ascii NArith ZArith Bool Lia List.
Import ListNotations.

Set Implicit Arguments.

(* ================================================================== *)
(** ** JavaScript strings *)
(* ================================================================== *)

Module JsString.

Definition codeunit := N.
Definition jsstring := list codeunit.

(** A string literal of the source, as code units (the literals of the
    source are all ASCII). *)
Definition lit (s : string) : jsstring :=
  List.map N_of_ascii (list_ascii_of_string s).

Definition LF : codeunit := 10%N.
Definition LT : codeunit := 60%N.
Definition QUOTE : codeunit := 34%N.

(** The test that [s] is the empty string. *)
Definition isEmpty (s : jsstring) : bool :=
  match s with [] => true | _ :: _ => false end.

Fixpoint eqb (s t : jsstring) : bool :=
  match s, t with
  | [], [] => true
  | c :: s', d :: t' => N.eqb c d && eqb s' t'
  | _, _ => false
  end.

(** WhiteSpace and LineTerminator code points of ECMAScript, the set that
    [String.prototype.trim] strips. *)
Definition isWhiteSpace (c : codeunit) : bool :=
  ((9 <=? c) && (c <=? 13) || (c =? 32) || (c =? 160) || (c =? 5760)
   || (8192 <=? c) && (c <=? 8202) || (c =? 8232) || (c =? 8233)
   || (c =? 8239) || (c =? 8287) || (c =? 12288) || (c =? 65279))%N.

Fixpoint trimStart (s : jsstring) : jsstring :=
  match s with
  | [] => []
  | c :: s' => if isWhiteSpace c then trimStart s' else s
  end.

Definition trimEnd (s : jsstring) : jsstring := rev (trimStart (rev s)).

(** [s.trim()] *)
Definition trim (s : jsstring) : jsstring := trimEnd (trimStart s).

(** Canonicalize of a regular expression with the [i] flag and without the
    [u] flag, as far as a comparison with an ASCII pattern character can
    tell: ASCII letters fold to upper case, and a code unit outside ASCII
    never folds into ASCII, so it is left alone. *)
Definition canonicalize (c : codeunit) : codeunit :=
  if ((97 <=? c) && (c <=? 122))%N then (c - 32)%N else c.

(** Does the literal pattern [pat] match at the start of [s], ignoring
    case? *)
Fixpoint matchesAt (pat s : jsstring) : bool :=
  match pat with
  | [] => true
  | p :: pat' =>
      match s with
      | [] => false
      | c :: s' => N.eqb (canonicalize p) (canonicalize c) && matchesAt pat' s'
      end
  end.

(** The index of the first suffix of [s] that passes [test], scanning from
    the left, or [-1]: the left-to-right scan of the regular expression
    matcher. *)
Fixpoint firstIndex (test : jsstring -> bool) (s : jsstring) {struct s} : Z :=
  if test s then 0%Z
  else match s with
       | [] => (-1)%Z
       | _ :: s' =>
           let r := firstIndex test s' in
           if (r =? -1)%Z then (-1)%Z else (r + 1)%Z
       end.

(** [s.search(/pat/i)] for a literal pattern: the index of the first match,
    or [-1]. *)
Definition search (pat s : jsstring) : Z := firstIndex (matchesAt pat) s.

(** [s.replace(/pat/gi, empty)] for a literal, non-empty pattern: scan from
    the left; at a match drop [length pat] code units and go on after
    them.  [skip] counts the code units of the current match still to drop. *)
Fixpoint replaceFrom (pat : jsstring) (skip : nat) (s : jsstring) : jsstring :=
  match s with
  | [] => []
  | c :: s' =>
      match skip with
      | S k => replaceFrom pat k s'
      | O =>
          if matchesAt pat s
          then replaceFrom pat (length pat - 1) s'
          else c :: replaceFrom pat 0 s'
      end
  end.

Definition removeAll (pat s : jsstring) : jsstring := replaceFrom pat 0 s.

(** [s.substring(k)] for [0 <= k]. *)
Definition substring (s : jsstring) (k : Z) : jsstring := skipn (Z.to_nat k) s.

(** [s.startsWith(pre)] *)
Fixpoint startsWith (pre s : jsstring) : bool :=
  match pre with
  | [] => true
  | p :: pre' =>
      match s with
      | [] => false
      | c :: s' => N.eqb p c && startsWith pre' s'
      end
  end.

(** [s.split(sep)] for a separator of one code unit; never the empty list. *)
Fixpoint split (sep : codeunit) (s : jsstring) : list jsstring :=
  match s with
  | [] => [[]]
  | c :: s' =>
      if N.eqb c sep then [] :: split sep s'
      else match split sep s' with
           | l :: ls => (c :: l) :: ls
           | [] => [[c]]
           end
  end.

(** [ls.join(sep)] *)
Fixpoint join (sep : jsstring) (ls : list jsstring) : jsstring :=
  match ls with
  | [] => []
  | l :: ls' =>
      match ls' with
      | [] => l
      | _ :: _ => l ++ sep ++ join sep ls'
      end
  end.

(** [ls.slice(k)] *)
Definition slice (A : Type) (ls : list A) (k : nat) : list A := skipn k ls.

(** [s] is [t] with some code units deleted. *)
Inductive Subseq : jsstring -> jsstring -> Prop :=
| Subseq_nil : Subseq [] []
| Subseq_keep (c : codeunit) (s t : jsstring) :
    Subseq s t -> Subseq (c :: s) (c :: t)
| Subseq_drop (c : codeunit) (s t : jsstring) :
    Subseq s t -> Subseq s (c :: t).

(** Does [pat] occur in [s] at index [k], ignoring case? *)
Definition occursAt (pat s : jsstring) (k : nat) : Prop :=
  matchesAt pat (skipn k s) = true.

End JsString.

Import JsString.

(* ================================================================== *)
(** ** The sanitizer: [cleanXmlContent] *)
(* ================================================================== *)

Module Sanitizer.

Definition styleNotice : jsstring :=
  lit "This XML file does not appear to have any style information associated with it.".
Definition treeNotice : jsstring := lit "The document tree is shown below.".
Definition errorsNotice : jsstring := lit "This page contains the following errors:".
Definition renderingNotice : jsstring :=
  lit "Below is a rendering of the page up to the first error.".

(** The chain of four [replace] calls. *)
Definition removeBrowserMessages (content : jsstring) : jsstring :=
  removeAll renderingNotice
    (removeAll errorsNotice
       (removeAll treeNotice
          (removeAll styleNotice content))).

Definition xmlStartPatterns : list jsstring :=
  [ lit "<?xml"; lit "<urlset"; lit "<sitemapindex"; lit "<rss"; lit "<feed" ].

(** The [for ... of] loop over the patterns: the first pattern of the list
    that matches somewhere decides, and the loop breaks. *)
Fixpoint findXmlStart (patterns : list jsstring) (cleaned : jsstring) : Z :=
  match patterns with
  | [] => (-1)%Z
  | pattern :: rest =>
      let m := search pattern cleaned in
      if (m =? -1)%Z then findXmlStart rest cleaned else m
  end.

(** Step 3: cut the text at [xmlStart] when one was found. *)
Definition cutToXmlStart (cleaned : jsstring) : jsstring :=
  let xmlStart := findXmlStart xmlStartPatterns cleaned in
  if (xmlStart =? -1)%Z then cleaned else substring cleaned xmlStart.

(** The loop over the lines: the index of the first line that, trimmed,
    starts with [<] or is empty; [0] when there is none. *)
Fixpoint firstXmlLineFrom (i : nat) (lines : list jsstring) : nat :=
  match lines with
  | [] => 0
  | line :: rest =>
      let trimmedLine := trim line in
      if startsWith [LT] trimmedLine || isEmpty trimmedLine then i
      else firstXmlLineFrom (S i) rest
  end.

(** Step 4: drop the lines before [firstXmlLine]. *)
Definition dropLeadingText (cleaned : jsstring) : jsstring :=
  let lines := split LF cleaned in
  let firstXmlLine := firstXmlLineFrom 0 lines in
  if 0 <? firstXmlLine then join [LF] (slice lines firstXmlLine) else cleaned.

Definition cleanXmlContent (content : jsstring) : jsstring :=
  let cleaned := trim (removeBrowserMessages content) in
  let cleaned := cutToXmlStart cleaned in
  let cleaned := dropLeadingText cleaned in
  trim cleaned.

(** Step 3 as the specification words it: the earliest index at which any
    of the openers occurs, whichever opener it is. *)
Definition earliestOpener (patterns : list jsstring) (s : jsstring) : Z :=
  firstIndex (fun t => existsb (fun p => matchesAt p t) patterns) s.

Definition cutAtEarliestOpener (cleaned : jsstring) : jsstring :=
  let k := earliestOpener xmlStartPatterns cleaned in
  if (k =? -1)%Z then cleaned else substring cleaned k.

End Sanitizer.

Import Sanitizer.

(* ================================================================== *)
(** ** The DOM that [DOMParser] hands back *)
(* ================================================================== *)

Module Dom.

(** An element has a namespace prefix (if written), a local name, its
    attributes by qualified name, and its child nodes in document order.
    Text nodes stand for character data and CDATA sections alike. *)
Inductive Element : Type :=
| mkElement (prefix : option jsstring) (localName : jsstring)
            (attributes : list (jsstring * jsstring))
            (childNodes : list Node)
with Node : Type :=
| ElementNode (e : Element)
| TextNode (data : jsstring)
| CommentNode (data : jsstring).

Definition prefix (e : Element) : option jsstring :=
  match e with mkElement p _ _ _ => p end.
Definition localName (e : Element) : jsstring :=
  match e with mkElement _ n _ _ => n end.
Definition attributes (e : Element) : list (jsstring * jsstring) :=
  match e with mkElement _ _ a _ => a end.
Definition childNodes (e : Element) : list Node :=
  match e with mkElement _ _ _ c => c end.

Record Document : Type := mkDocument { documentElement : Element }.

(** The elements below [e], in document (pre-)order, [e] itself excluded. *)
Fixpoint descendants (e : Element) : list Element :=
  match e with
  | mkElement _ _ _ cs =>
      (fix below (ns : list Node) : list Element :=
         match ns with
         | [] => []
         | ElementNode e' :: ns' => (e' :: descendants e') ++ below ns'
         | _ :: ns' => below ns'
         end) cs
  end.

(** [e.textContent]: the data of every text node below [e], concatenated
    in document order; comments do not count. *)
Fixpoint textContent (e : Element) : jsstring :=
  match e with
  | mkElement _ _ _ cs =>
      (fix texts (ns : list Node) : jsstring :=
         match ns with
         | [] => []
         | ElementNode e' :: ns' => textContent e' ++ texts ns'
         | TextNode d :: ns' => d ++ texts ns'
         | CommentNode _ :: ns' => texts ns'
         end) cs
  end.

(** A selector list of type selectors, such as ["xhtml\\:link, link"].  A
    type selector is compared with the local name of the element; in an XML
    document the comparison is case-sensitive and the namespace is not
    looked at. *)
Definition selector := list jsstring.

Definition matchesSelector (sel : selector) (e : Element) : bool :=
  existsb (fun name => JsString.eqb name (localName e)) sel.

(** [e.querySelectorAll(sel)] and [e.querySelector(sel)] *)
Definition querySelectorAll (sel : selector) (e : Element) : list Element :=
  filter (matchesSelector sel) (descendants e).

Definition querySelector (sel : selector) (e : Element) : option Element :=
  hd_error (querySelectorAll sel e).

(** [doc.querySelectorAll(sel)] and [doc.querySelector(sel)]: the root
    element is among the candidates. *)
Definition docQuerySelectorAll (sel : selector) (d : Document) : list Element :=
  filter (matchesSelector sel)
         (documentElement d :: descendants (documentElement d)).

Definition docQuerySelector (sel : selector) (d : Document) : option Element :=
  hd_error (docQuerySelectorAll sel d).

(** [e.getAttribute(name)]; [None] is JavaScript's [null]. *)
Fixpoint lookupAttribute (name : jsstring) (attrs : list (jsstring * jsstring))
  : option jsstring :=
  match attrs with
  | [] => None
  | (n, v) :: rest => if JsString.eqb n name then Some v else lookupAttribute name rest
  end.

Definition getAttribute (name : jsstring) (e : Element) : option jsstring :=
  lookupAttribute name (attributes e).

(** The child elements of [e] with the given local name. *)
Definition childElements (name : jsstring) (e : Element) : list Element :=
  flat_map (fun n => match n with
                     | ElementNode c =>
                         if JsString.eqb name (localName c) then [c] else []
                     | _ => []
                     end) (childNodes e).

(** What the XML parser makes of a text: a root element, or a report of the
    first well-formedness error. *)
Inductive ParseResult : Type :=
| WellFormed (root : Element)
| Malformed (report : list Node).

(** The document [parseFromString(text, "text/xml")] returns.  For
    malformed markup the platform returns a document that holds a
    [parsererror] element; as the HTML Standard words it, that element is
    the root and the report hangs below it. *)
Definition documentOf (r : ParseResult) : Document :=
  match r with
  | WellFormed root => mkDocument root
  | Malformed report =>
      mkDocument (mkElement None (lit "parsererror") [] report)
  end.

End Dom.

Import Dom.

(* ================================================================== *)
(** ** The extractor: the body of [parseSitemap] *)
(* ================================================================== *)

Module Extractor.

Record SitemapEntry : Type := mkEntry {
  url : jsstring;
  lastModified : option jsstring;
  changeFrequency : option jsstring;
  priority : option jsstring;
  alternates : option jsstring
}.

(** The three [Error]s the body throws, with their messages. *)
Inductive ErrorKind : Type := EmptyInput | InvalidXml | NoUrlsFound.

Definition message (e : ErrorKind) : jsstring :=
  match e with
  | EmptyInput => lit "No content provided"
  | InvalidXml => lit "Invalid XML format"
  | NoUrlsFound => lit "No URLs found in the sitemap"
  end.

Inductive Outcome : Type :=
| Extracted (urls : list SitemapEntry)
| Failed (e : ErrorKind).

(** [el?.textContent] *)
Definition textOf (el : option Element) : option jsstring :=
  option_map textContent el.

(** [v || d] on a string that may be undefined: the empty string is falsy. *)
Definition orElse (v : option jsstring) (d : jsstring) : jsstring :=
  match v with
  | Some (c :: s) => c :: s
  | _ => d
  end.

(** A value inside a template literal: [null] prints as ["null"]. *)
Definition interpolate (v : option jsstring) : jsstring :=
  match v with
  | Some s => s
  | None => lit "null"
  end.

Definition linkSelector : selector := [ lit "xhtml:link"; lit "link" ].

(** One pair of the alternates string. *)
Definition alternatePair (alt : Element) : jsstring :=
  interpolate (getAttribute (lit "hreflang") alt) ++ lit ": "
  ++ interpolate (getAttribute (lit "href") alt).

(** The alternates of a [url] element: unset when it has no link element. *)
Definition alternatesOf (urlElement : Element) : option jsstring :=
  let alts := querySelectorAll linkSelector urlElement in
  if 0 <? length alts
  then Some (join (lit "; ") (List.map alternatePair alts))
  else None.

(** The callback of the first [forEach]: the entry pushed for one [url]
    element, if any. *)
Definition urlEntry (urlElement : Element) : option SitemapEntry :=
  match textOf (querySelector [lit "loc"] urlElement) with
  | Some (c :: s) =>
      Some {| url := c :: s;
              lastModified :=
                Some (orElse (textOf (querySelector [lit "lastmod"] urlElement)) []);
              changeFrequency :=
                Some (orElse (textOf (querySelector [lit "changefreq"] urlElement)) []);
              priority :=
                Some (orElse (textOf (querySelector [lit "priority"] urlElement)) []);
              alternates := alternatesOf urlElement |}
  | _ => None
  end.

Definition indexMarker : jsstring := lit "Sitemap Index".

(** The callback of the second [forEach]. *)
Definition sitemapEntry (sitemapElement : Element) : option SitemapEntry :=
  match textOf (querySelector [lit "loc"] sitemapElement) with
  | Some (c :: s) =>
      Some {| url := c :: s;
              lastModified :=
                Some (orElse (textOf (querySelector [lit "lastmod"] sitemapElement)) []);
              changeFrequency := Some indexMarker;
              priority := Some [];
              alternates := None |}
  | _ => None
  end.

(** [elements.forEach(el => { ... urls.push(entry) ... })]: the array
    [urls] is threaded through the calls. *)
Definition pushEach (entryOf : Element -> option SitemapEntry)
           (elements : list Element) (urls : list SitemapEntry)
  : list SitemapEntry :=
  fold_left (fun urls el =>
               match entryOf el with
               | Some entry => urls ++ [entry]
               | None => urls
               end) elements urls.

(** The body of the [try] block from the parser check on. *)
Definition extractFrom (xmlDoc : Document) : Outcome :=
  match docQuerySelector [lit "parsererror"] xmlDoc with
  | Some _ => Failed InvalidXml
  | None =>
      let urls := pushEach urlEntry (docQuerySelectorAll [lit "url"] xmlDoc) [] in
      let urls :=
        if length urls =? 0
        then pushEach sitemapEntry (docQuerySelectorAll [lit "sitemap"] xmlDoc) urls
        else urls in
      if length urls =? 0 then Failed NoUrlsFound else Extracted urls
  end.

(** The records of each pass, as a function of the document alone. *)
Definition urlPass (xmlDoc : Document) : list SitemapEntry :=
  pushEach urlEntry (docQuerySelectorAll [lit "url"] xmlDoc) [].

Definition sitemapPass (xmlDoc : Document) : list SitemapEntry :=
  pushEach sitemapEntry (docQuerySelectorAll [lit "sitemap"] xmlDoc) [].

Section WithParser.

(** The XML parser of the platform. *)
Variable xmlParse : jsstring -> ParseResult.

Definition parseFromString (text : jsstring) : Document :=
  documentOf (xmlParse text).

(** [extract] of the specification: parse, then walk. *)
Definition extract (xmlText : jsstring) : Outcome :=
  extractFrom (parseFromString xmlText).

(** What [file.text()] settles to: the text of the file, or a rejection.
    The value of a rejection is an [Error] with its [message], or a value
    that is no [Error]. *)
Inductive Rejection : Type :=
| RejectedWith (errorMessage : jsstring)
| RejectedOther.

Inductive FileRead : Type :=
| Readable (rawText : jsstring)
| Unreadable (reason : Rejection).

(** The state of the page that [parseSitemap] reads and writes; [file]
    is the chosen file, given by what reading it settles to.  The
    processing flag and the delay that only shows it are left out. *)
Record PageState : Type := mkState {
  file : option FileRead;
  xmlContent : jsstring;
  activeTab : jsstring;
  sitemapData : list SitemapEntry;
  error : jsstring
}.

(** What the [try] block can throw: one of the three errors of the body,
    or the rejection of the file read. *)
Inductive Thrown : Type :=
| ThrownError (e : ErrorKind)
| ThrownByRead (reason : Rejection).

(** The [catch]: the message of an [Error], and a fixed message for any
    other value. *)
Definition caughtMessage (t : Thrown) : jsstring :=
  match t with
  | ThrownError e => message e
  | ThrownByRead (RejectedWith errorMessage) => errorMessage
  | ThrownByRead RejectedOther => lit "Failed to parse sitemap"
  end.

(** The choice of the text handed to the parser: the sanitized text, the
    [EmptyInput] error, or the rejection of the file read. *)
Inductive Chosen : Type :=
| ChosenText (text : jsstring)
| NothingChosen
| ReadRejected (reason : Rejection).

Definition chosenText (st : PageState) : Chosen :=
  if JsString.eqb (activeTab st) (lit "upload")
     && match file st with Some _ => true | None => false end
  then match file st with
       | Some (Readable rawText) => ChosenText (Sanitizer.cleanXmlContent rawText)
       | Some (Unreadable reason) => ReadRejected reason
       | None => NothingChosen
       end
  else if JsString.eqb (activeTab st) (lit "paste")
          && negb (isEmpty (trim (xmlContent st)))
  then ChosenText (Sanitizer.cleanXmlContent (trim (xmlContent st)))
  else NothingChosen.

(** How the [try] block ends: with the entries to store, or with a
    throw. *)
Inductive RunResult : Type :=
| Stored (urls : list SitemapEntry)
| Threw (t : Thrown).

Definition run (st : PageState) : RunResult :=
  match chosenText st with
  | ChosenText text =>
      match extract text with
      | Extracted urls => Stored urls
      | Failed e => Threw (ThrownError e)
      end
  | NothingChosen => Threw (ThrownError EmptyInput)
  | ReadRejected reason => Threw (ThrownByRead reason)
  end.

(** [parseSitemap]: nothing happens without a file and without pasted
    text; otherwise the error is cleared, and then either the entries are
    stored or the [catch] stores the message of what was thrown. *)
Definition parseSitemap (st : PageState) : PageState :=
  if match file st with Some _ => false | None => true end
     && isEmpty (trim (xmlContent st))
  then st
  else match run st with
       | Stored urls =>
           mkState (file st) (xmlContent st) (activeTab st) urls []
       | Threw t =>
           mkState (file st) (xmlContent st) (activeTab st)
                   (sitemapData st) (caughtMessage t)
       end.

End WithParser.

End Extractor.

Import Extractor.

(* ================================================================== *)
(** ** The serializer: [downloadCSV] *)
(* ================================================================== *)

Module Serializer.

Definition headers : list jsstring :=
  [ lit "URL"; lit "Last Modified"; lit "Change Frequency";
    lit "Priority"; lit "Alternates" ].

(** The template literal that puts a value between two double quotes. *)
Definition quoted (s : jsstring) : jsstring := [QUOTE] ++ s ++ [QUOTE].

Definition csvRow (entry : SitemapEntry) : jsstring :=
  join (lit ",")
       [ quoted (url entry);
         quoted (orElse (lastModified entry) []);
         quoted (orElse (changeFrequency entry) []);
         quoted (orElse (priority entry) []);
         quoted (orElse (alternates entry) []) ].

Definition csvContent (sitemapData : list SitemapEntry) : jsstring :=
  join [LF] (join (lit ",") headers :: List.map csvRow sitemapData).

(** The text of the file the browser is made to download; [None] when the
    function returns at its first line and nothing is downloaded. *)
Definition downloadCSV (sitemapData : list SitemapEntry) : option jsstring :=
  if length sitemapData =? 0 then None else Some (csvContent sitemapData).

(** The serializer as the specification words it: the header row, then
    for each record a newline and its five quoted fields. *)
Definition headerRow : jsstring :=
  lit "URL,Last Modified,Change Frequency,Priority,Alternates".

Definition fieldOr (v : option jsstring) : jsstring :=
  match v with Some s => s | None => [] end.

Definition rowOf (r : SitemapEntry) : jsstring :=
  [QUOTE] ++ url r ++ [QUOTE] ++ lit ","
  ++ [QUOTE] ++ fieldOr (lastModified r) ++ [QUOTE] ++ lit ","
  ++ [QUOTE] ++ fieldOr (changeFrequency r) ++ [QUOTE] ++ lit ","
  ++ [QUOTE] ++ fieldOr (priority r) ++ [QUOTE] ++ lit ","
  ++ [QUOTE] ++ fieldOr (alternates r) ++ [QUOTE].

Definition toCsv (records : list SitemapEntry) : jsstring :=
  headerRow ++ concat (List.map (fun r => LF :: rowOf r) records).

End Serializer.

Import Serializer.

(* ================================================================== *)
(** ** The claims of the specification, as it words them *)
(* ================================================================== *)

Module Stated.

(** The records [pushEach] adds, one element after the other. *)
Definition collected (entryOf : Element -> option SitemapEntry)
           (elements : list Element) : list SitemapEntry :=
  flat_map (fun el => match entryOf el with
                      | Some entry => [entry]
                      | None => []
                      end) elements.

(** The first [loc] child of an element. *)
Definition locChild (e : Element) : option Element :=
  hd_error (childElements (lit "loc") e).

(** A [sitemap] element with a location: the text the code reads as its
    location is there and not empty. *)
Definition hasLocation (e : Element) : bool :=
  match textOf (querySelector [lit "loc"] e) with
  | Some (_ :: _) => true
  | _ => false
  end.

(** C1 as stated: when every [url] element has a [loc] child, there is
    one record per [url] element, in document order, and its [url] is the
    text of that child. *)
Definition claimedUrlRecords (d : Document) : Prop :=
  Forall (fun u => locChild u <> None) (docQuerySelectorAll [lit "url"] d) ->
  exists records,
    extractFrom d = Extracted records
    /\ Forall2 (fun u r => exists l, locChild u = Some l /\ url r = textContent l)
               (docQuerySelectorAll [lit "url"] d) records.

(** C4 as stated: when the [url] pass gives nothing and some [sitemap]
    element has a location, there is one record per such element, in
    document order, marked as an index entry. *)
Definition claimedIndexRecords (d : Document) : Prop :=
  urlPass d = [] ->
  filter hasLocation (docQuerySelectorAll [lit "sitemap"] d) <> [] ->
  exists records,
    extractFrom d = Extracted records
    /\ Forall2 (fun s r =>
                  textOf (querySelector [lit "loc"] s) = Some (url r)
                  /\ changeFrequency r = Some indexMarker
                  /\ priority r = Some [])
               (filter hasLocation (docQuerySelectorAll [lit "sitemap"] d))
               records.

(** C6 as stated, for the parse of one input text. *)
Definition claimedFailures (r : ParseResult) : Prop :=
  extractFrom (documentOf r) <> Extracted []
  /\ (forall report, r = Malformed report ->
                     extractFrom (documentOf r) = Failed InvalidXml)
  /\ (forall root, r = WellFormed root ->
                   urlPass (mkDocument root) = [] ->
                   sitemapPass (mkDocument root) = [] ->
                   extractFrom (documentOf r) = Failed NoUrlsFound).

(** C8 as stated: a [url] element without a [loc] child pushes nothing. *)
Definition claimedSkip (urlElement : Element) : Prop :=
  childElements (lit "loc") urlElement = [] -> urlEntry urlElement = None.

(** C5 as stated: whatever the records, the header row and the rows. *)
Definition claimedCsv (records : list SitemapEntry) : Prop :=
  downloadCSV records = Some (toCsv records).

(** C10 as stated: in a [url] element with a [loc] child, a link child
    contributes its pair to the alternates string of the record. *)
Definition claimedAlternates (urlElement alt : Element) : Prop :=
  locChild urlElement <> None ->
  In (ElementNode alt) (childNodes urlElement) ->
  localName alt = lit "link" ->
  exists entry before after,
    urlEntry urlElement = Some entry
    /\ alternates entry
       = Some (join (lit "; ") (before ++ alternatePair alt :: after)).

End Stated.

Import Stated.

(* ================================================================== *)
(** ** Sample documents *)
(* ================================================================== *)

Module Samples.

Definition el (name : string) (children : list Node) : Node :=
  ElementNode (mkElement None (lit name) [] children).

Definition pel (pre name : string) (attrs : list (jsstring * jsstring))
           (children : list Node) : Node :=
  ElementNode (mkElement (Some (lit pre)) (lit name) attrs children).

Definition txt (s : string) : Node := TextNode (lit s).

Definition rootOf (name : string) (children : list Node) : Document :=
  mkDocument (mkElement None (lit name) [] children).

(** [<urlset><url><loc></loc></url></urlset>] *)
Definition emptyLoc : Document :=
  rootOf "urlset" [ el "url" [ el "loc" [] ] ].

(** [<url><image:image><image:loc>https://a.com/i.png</image:loc></image:image></url>] *)
Definition imageOnlyUrl : Element :=
  mkElement None (lit "url") []
    [ pel "image" "image" [] [ pel "image" "loc" [] [ txt "https://a.com/i.png" ] ] ].

Definition imageOnly : Document :=
  rootOf "urlset" [ ElementNode imageOnlyUrl ].

(** A [url] element whose image comes before its [loc] child. *)
Definition imageFirst : Document :=
  rootOf "urlset"
    [ el "url"
        [ pel "image" "image" [] [ pel "image" "loc" [] [ txt "https://a.com/i.png" ] ];
          el "loc" [ txt "https://a.com/" ] ] ].

(** [<urlset><url><loc>https://a.com/</loc><priority>0.5</priority></url></urlset>] *)
Definition oneUrl : Document :=
  rootOf "urlset"
    [ el "url" [ el "loc" [ txt "https://a.com/" ]; el "priority" [ txt "0.5" ] ] ].

(** Two [url] elements, the second one without [loc]. *)
Definition secondWithoutLoc : Document :=
  rootOf "urlset"
    [ el "url" [ el "loc" [ txt "https://a.com/" ] ];
      el "url" [ el "lastmod" [ txt "2024-01-01" ] ] ].

Definition plainUrl : Element :=
  mkElement None (lit "url") [] [ el "loc" [ txt "https://a.com/" ] ].

Definition bareUrl : Element :=
  mkElement None (lit "url") [] [ el "lastmod" [ txt "2024-01-01" ] ].

(** A link without [hreflang] between two complete ones. *)
Definition linkWithoutLang : Element :=
  mkElement (Some (lit "xhtml")) (lit "link")
            [ (lit "rel", lit "alternate"); (lit "href", lit "https://x/de") ] [].

Definition linkedUrl : Element :=
  mkElement None (lit "url") []
    [ el "loc" [ txt "https://x/" ];
      pel "xhtml" "link" [ (lit "hreflang", lit "en"); (lit "href", lit "https://x/en") ] [];
      ElementNode linkWithoutLang;
      pel "xhtml" "link" [ (lit "hreflang", lit "fr"); (lit "href", lit "https://x/fr") ] [] ].

(** [<url><loc></loc><xhtml:link rel="alternate" href="https://x/de"/></url>] *)
Definition emptyLocLinkedUrl : Element :=
  mkElement None (lit "url") []
    [ el "loc" []; ElementNode linkWithoutLang ].

Definition emptyLocLinked : Document :=
  rootOf "urlset" [ ElementNode emptyLocLinkedUrl ].

Definition linked : Document :=
  rootOf "urlset" [ ElementNode linkedUrl ].

(** A sitemap index of two sitemaps. *)
Definition index : Document :=
  rootOf "sitemapindex"
    [ el "sitemap" [ el "loc" [ txt "https://a.com/s1.xml" ];
                     el "lastmod" [ txt "2024-01-01" ] ];
      el "sitemap" [ el "loc" [ txt "https://a.com/s2.xml" ] ] ].

(** A well-formed sitemap index that holds an element named
    [parsererror]. *)
Definition indexWithParsererror : Document :=
  rootOf "sitemapindex"
    [ el "parsererror" [];
      el "sitemap" [ el "loc" [ txt "https://a.com/s1.xml" ] ] ].

(** A well-formed sitemap that holds an element named [parsererror]. *)
Definition urlsWithParsererror : Document :=
  rootOf "urlset"
    [ el "url" [ el "loc" [ txt "https://a.com/" ] ];
      el "parsererror" [] ].

(** [<parsererror/>], a well-formed document. *)
Definition parsererrorRoot : Element := mkElement None (lit "parsererror") [] [].

(** [<urlset/>] *)
Definition emptyUrlset : Element := mkElement None (lit "urlset") [] [].

(** The record of the end-to-end example of the specification. *)
Definition sampleRecord : SitemapEntry :=
  {| url := lit "https://a.com/";
     lastModified := Some [];
     changeFrequency := Some [];
     priority := Some (lit "0.5");
     alternates := None |}.

(** A parser that finds every text malformed, and a page that shows the
    entries of an earlier run while the pasted text has changed. *)
Definition rejecting : jsstring -> ParseResult := fun _ => Malformed [].

Definition staleState : PageState :=
  mkState None (lit "<urlset>") (lit "paste") [sampleRecord] [].

(** A parser that answers every text with the tree of the one-entry
    sitemap, and a page with that sitemap pasted. *)
Definition accepting : jsstring -> ParseResult :=
  fun _ => WellFormed (documentElement oneUrl).

Definition pastedState : PageState :=
  mkState None
          (lit "<urlset><url><loc>https://a.com/</loc><priority>0.5</priority></url></urlset>")
          (lit "paste") [] [].

(** A page on the paste tab that still holds a file whose read rejects. *)
Definition unreadableState : PageState :=
  mkState (Some (Unreadable (RejectedWith (lit "The requested file could not be read"))))
          (lit "<urlset/>") (lit "paste") [sampleRecord] [].

End Samples.

(* ================================================================== *)
(** ** The other handlers of the page and what it renders *)
(* ================================================================== *)

Module PageEvents.


(** [handleFileChange]: [selectedFile] is [event.target.files?.[0]]. *)
Definition handleFileChange (selectedFile : option FileRead) (st : PageState)
  : PageState :=
  match selectedFile with
  | Some f => mkState (Some f) (xmlContent st) (activeTab st) [] []
  | None => st
  end.

(** [handleTabChange] *)
Definition handleTabChange (value : jsstring) (st : PageState) : PageState :=
  if JsString.eqb value (lit "upload")
  then mkState (file st) [] value [] []
  else mkState None (xmlContent st) value [] [].





(** The conditions of the rendered page: the error alert, the results
    panel (which holds the download button), the rows of the preview table
    and the notice below it. *)
Definition errorVisible (st : PageState) : bool := negb (isEmpty (error st)).

Definition resultsVisible (st : PageState) : bool :=
  0 <? length (sitemapData st).

Definition previewRows (sitemapData : list SitemapEntry) : list SitemapEntry :=
  firstn 100 sitemapData.

Definition moreNoticeVisible (sitemapData : list SitemapEntry) : bool :=
  100 <? length sitemapData.

End PageEvents.

Import PageEvents.

(* ================================================================== *)
(** ** The favicon manager: the two-state indicator *)
(* ================================================================== *)

Module Favicon.

Definition originalFavicon : jsstring := lit "/favicon-32x32.png".
Definition processingFavicon : jsstring := lit "/favicon-processing.png".

(** The fields of [FaviconManager] that change.  [currentFavicon] is the
    [href] of the link element the manager holds, [None] when it holds no
    element. *)
Record FaviconManager : Type := mkManager {
  currentFavicon : option jsstring;
  animationFrame : option N;
  isProcessing : bool
}.

(** The constructor.  [None]: there is no window; [Some None]: the document
    has no icon link and one is created; [Some (Some h)]: the document has
    an icon link with [href] [h]. *)
Definition construct (env : option (option jsstring)) : FaviconManager :=
  match env with
  | None => mkManager None None false
  | Some None => mkManager (Some originalFavicon) None false
  | Some (Some h) => mkManager (Some h) None false
  end.

Definition updateFavicon (href : jsstring) (m : FaviconManager) : FaviconManager :=
  match currentFavicon m with
  | Some _ => mkManager (Some href) (animationFrame m) (isProcessing m)
  | None => m
  end.

Definition startSimpleProcessing (m : FaviconManager) : FaviconManager :=
  if isProcessing m then m
  else updateFavicon processingFavicon
         (mkManager (currentFavicon m) (animationFrame m) true).

Definition stopSimpleProcessing (m : FaviconManager) : FaviconManager :=
  updateFavicon originalFavicon
    (mkManager (currentFavicon m) (animationFrame m) false).

(** The calls the page makes through [useFavicon]. *)
Inductive Call : Type := StartSimple | StopSimple.

Definition call (c : Call) (m : FaviconManager) : FaviconManager :=
  match c with
  | StartSimple => startSimpleProcessing m
  | StopSimple => stopSimpleProcessing m
  end.

Definition calls (cs : list Call) (m : FaviconManager) : FaviconManager :=
  fold_left (fun m c => call c m) cs m.

Definition isStart (c : Call) : bool :=
  match c with StartSimple => true | StopSimple => false end.

(** The manager [m] with the indicator put to [b]. *)
Definition settled (b : bool) (m : FaviconManager) : FaviconManager :=
  mkManager (match currentFavicon m with
             | Some _ => Some (if b then processingFavicon else originalFavicon)
             | None => None
             end)
            (animationFrame m) b.

(** The icon shows the state. *)
Definition iconShowsState (m : FaviconManager) : Prop :=
  match currentFavicon m with
  | Some href =>
      href = if isProcessing m then processingFavicon else originalFavicon
  | None => True
  end.

End Favicon.

Import Favicon.

(* ================================================================== *)
(** ** Shapes of texts and records *)
(* ================================================================== *)

Module Shapes.

(** A text of white space only. *)
Definition allSpace (s : jsstring) : Prop :=
  Forall (fun c => isWhiteSpace c = true) s.

(** The test of the loop over the lines: the line, trimmed, starts with
    [<] or is empty. *)
Definition isXmlLine (line : jsstring) : bool :=
  startsWith [LT] (trim line) || isEmpty (trim line).

(** No field of the record holds a newline. *)
Definition oneLine (r : SitemapEntry) : Prop :=
  ~ In LF (url r)
  /\ ~ In LF (fieldOr (lastModified r))
  /\ ~ In LF (fieldOr (changeFrequency r))
  /\ ~ In LF (fieldOr (priority r))
  /\ ~ In LF (fieldOr (alternates r)).

(** A code unit that no white space matches, even ignoring case. *)
Definition solid (c : codeunit) : bool :=
  ((32 <? canonicalize c) && (canonicalize c <? 160))%N.

(** A pattern whose first and last code units are solid. *)
Definition solidEnds (pat : jsstring) : bool :=
  match pat with
  | [] => false
  | c :: _ => solid c && solid (last pat c)
  end.

End Shapes.

Import Shapes.

(* ================================================================== *)
(** ** Facts about the string operations *)
(* ================================================================== *)

Section StringFacts.

Lemma trimStart_length (s : jsstring) : length (trimStart s) <= length s.
Proof.
  induction s as [|c s IH]; simpl; [lia|].
  destruct (isWhiteSpace c); simpl; lia.
Qed.

Lemma trimEnd_length (s : jsstring) : length (trimEnd s) <= length s.
Proof.
  unfold trimEnd. rewrite length_rev.
  pose proof (trimStart_length (rev s)) as H.
  rewrite length_rev in H. exact H.
Qed.

Lemma trim_length (s : jsstring) : length (trim s) <= length s.
Proof.
  unfold trim.
  pose proof (trimEnd_length (trimStart s)).
  pose proof (trimStart_length s). lia.
Qed.

Lemma split_nonempty (sep : codeunit) (s : jsstring) : split sep s <> [].
Proof.
  induction s as [|c s IH]; simpl; [discriminate|].
  destruct (N.eqb c sep); [discriminate|].
  destruct (split sep s); discriminate.
Qed.

Lemma join_cons (sep l : jsstring) (ls : list jsstring) :
  ls <> [] -> join sep (l :: ls) = l ++ sep ++ join sep ls.
Proof. destruct ls; [congruence | reflexivity]. Qed.

(** Joining the lines of a text gives the text back. *)
Lemma join_split (sep : codeunit) (s : jsstring) :
  join [sep] (split sep s) = s.
Proof.
  induction s as [|c s IH]; [reflexivity|].
  simpl split. destruct (N.eqb_spec c sep) as [->|Hne].
  - rewrite join_cons by apply split_nonempty. simpl. now rewrite IH.
  - pose proof (split_nonempty sep s) as Hn.
    destruct (split sep s) as [|l ls]; [congruence|].
    destruct ls as [|l' ls].
    + simpl in *. now rewrite IH.
    + change (join [sep] ((c :: l) :: l' :: ls))
        with (c :: join [sep] (l :: l' :: ls)).
      now rewrite IH.
Qed.

(** The text from line [k] on is a suffix of the text. *)
Lemma join_skipn_suffix (sep : jsstring) (ls : list jsstring) :
  forall k, exists pre, join sep ls = pre ++ join sep (skipn k ls).
Proof.
  induction ls as [|l ls IH]; intros k.
  - exists []. now rewrite skipn_nil.
  - destruct k as [|k]; [now exists []|].
    simpl skipn. destruct (IH k) as [pre Hpre].
    destruct ls as [|l' ls].
    + exists l. rewrite skipn_nil. simpl. now rewrite app_nil_r.
    + exists (l ++ sep ++ pre). rewrite join_cons by discriminate.
      rewrite Hpre. now rewrite <- !app_assoc.
Qed.

End StringFacts.

(* ================================================================== *)
(** ** The sanitizer only deletes *)
(* ================================================================== *)

Section SanitizerDeletes.

Lemma Subseq_refl (s : jsstring) : Subseq s s.
Proof. induction s; constructor; assumption. Qed.

Lemma Subseq_nil_l (s : jsstring) : Subseq [] s.
Proof. induction s; constructor; assumption. Qed.

Lemma Subseq_trans (s t u : jsstring) : Subseq s t -> Subseq t u -> Subseq s u.
Proof.
  intros Hst Htu. revert s Hst.
  induction Htu as [|c t u _ IH|c t u _ IH]; intros s Hst.
  - exact Hst.
  - inversion Hst; subst.
    + apply Subseq_keep. now apply IH.
    + apply Subseq_drop. now apply IH.
  - apply Subseq_drop. now apply IH.
Qed.

Lemma Subseq_length (s t : jsstring) : Subseq s t -> length s <= length t.
Proof. induction 1; simpl; lia. Qed.

Lemma Subseq_infix (pre s post : jsstring) : Subseq s (pre ++ s ++ post).
Proof.
  induction pre as [|c pre IH]; simpl.
  - induction s as [|c s IH]; simpl; [apply Subseq_nil_l|].
    now apply Subseq_keep.
  - now apply Subseq_drop.
Qed.

Lemma Subseq_suffix (pre s : jsstring) : Subseq s (pre ++ s).
Proof.
  pose proof (Subseq_infix pre s []) as H. now rewrite app_nil_r in H.
Qed.

Lemma replaceFrom_Subseq (pat : jsstring) (s : jsstring) :
  forall skip, Subseq (replaceFrom pat skip s) s.
Proof.
  induction s as [|c s IH]; intros skip; simpl; [constructor|].
  destruct skip as [|k].
  - destruct (matchesAt pat (c :: s)).
    + apply Subseq_drop, IH.
    + apply Subseq_keep, IH.
  - apply Subseq_drop, IH.
Qed.

Lemma removeBrowserMessages_Subseq (s : jsstring) :
  Subseq (removeBrowserMessages s) s.
Proof.
  unfold removeBrowserMessages, removeAll.
  repeat (eapply Subseq_trans; [apply replaceFrom_Subseq|]).
  apply Subseq_refl.
Qed.

Lemma trimStart_suffix (s : jsstring) : exists pre, s = pre ++ trimStart s.
Proof.
  induction s as [|c s [pre IH]]; [now exists []|].
  simpl. destruct (isWhiteSpace c); [|now exists []].
  exists (c :: pre). simpl. now rewrite <- IH.
Qed.

Lemma trimEnd_prefix (s : jsstring) : exists post, s = trimEnd s ++ post.
Proof.
  unfold trimEnd. destruct (trimStart_suffix (rev s)) as [pre H].
  exists (rev pre). rewrite <- rev_app_distr, <- H. now rewrite rev_involutive.
Qed.

Lemma trim_infix (s : jsstring) : exists pre post, s = pre ++ trim s ++ post.
Proof.
  unfold trim. destruct (trimStart_suffix s) as [pre H].
  destruct (trimEnd_prefix (trimStart s)) as [post H'].
  exists pre, post. now rewrite <- H', <- H.
Qed.

Lemma trim_Subseq (s : jsstring) : Subseq (trim s) s.
Proof.
  destruct (trim_infix s) as (pre & post & H).
  rewrite H at 2. apply Subseq_infix.
Qed.

Lemma cutToXmlStart_suffix (s : jsstring) :
  exists pre, s = pre ++ cutToXmlStart s.
Proof.
  unfold cutToXmlStart, substring.
  destruct (findXmlStart xmlStartPatterns s =? -1)%Z.
  - now exists [].
  - eexists. symmetry. apply firstn_skipn.
Qed.

Lemma dropLeadingText_suffix (s : jsstring) :
  exists pre, s = pre ++ dropLeadingText s.
Proof.
  unfold dropLeadingText, slice.
  destruct (0 <? firstXmlLineFrom 0 (split LF s)).
  - destruct (join_skipn_suffix [LF] (split LF s)
                (firstXmlLineFrom 0 (split LF s))) as [pre H].
    exists pre. rewrite <- H. symmetry. apply join_split.
  - now exists [].
Qed.

Lemma cutToXmlStart_Subseq (s : jsstring) : Subseq (cutToXmlStart s) s.
Proof.
  destruct (cutToXmlStart_suffix s) as [pre H].
  rewrite H at 2. apply Subseq_suffix.
Qed.

Lemma dropLeadingText_Subseq (s : jsstring) : Subseq (dropLeadingText s) s.
Proof.
  destruct (dropLeadingText_suffix s) as [pre H].
  rewrite H at 2. apply Subseq_suffix.
Qed.

Lemma cleanXmlContent_Subseq (x : jsstring) : Subseq (cleanXmlContent x) x.
Proof.
  unfold cleanXmlContent.
  eapply Subseq_trans; [apply trim_Subseq|].
  eapply Subseq_trans; [apply dropLeadingText_Subseq|].
  eapply Subseq_trans; [apply cutToXmlStart_Subseq|].
  eapply Subseq_trans; [apply trim_Subseq|].
  apply removeBrowserMessages_Subseq.
Qed.

(** C9. The sanitized text is never longer than the raw text.  It is the
    raw text with code units deleted, and so is the result of each single
    step: the removal of the browser notices, the trim, the cut at the XML
    start and the removal of the leading lines delete code units and
    insert none. *)
Theorem cleanXmlContent_never_longer (x : jsstring) :
  length (cleanXmlContent x) <= length x
  /\ Subseq (cleanXmlContent x) x
  /\ (forall s, Subseq (removeBrowserMessages s) s)
  /\ (forall s, Subseq (trim s) s)
  /\ (forall s, Subseq (cutToXmlStart s) s)
  /\ (forall s, Subseq (dropLeadingText s) s).
Proof.
  split; [apply Subseq_length, cleanXmlContent_Subseq|].
  split; [apply cleanXmlContent_Subseq|].
  auto using removeBrowserMessages_Subseq, trim_Subseq,
             cutToXmlStart_Subseq, dropLeadingText_Subseq.
Qed.

End SanitizerDeletes.

(* ================================================================== *)
(** ** Step 3: which opener decides *)
(* ================================================================== *)

Section XmlStart.

Lemma firstIndex_range (test : jsstring -> bool) (s : jsstring) :
  (firstIndex test s = -1 \/ 0 <= firstIndex test s <= Z.of_nat (length s))%Z.
Proof.
  induction s as [|c s IH]; simpl.
  - destruct (test []); [right; lia | now left].
  - destruct (test (c :: s)); [right; lia|].
    destruct (Z.eqb_spec (firstIndex test s) (-1)); [now left|].
    right. lia.
Qed.

Lemma firstIndex_none (test : jsstring -> bool) (s : jsstring) :
  firstIndex test s = (-1)%Z <-> forall j, test (skipn j s) = false.
Proof.
  induction s as [|c s IH]; simpl.
  - split.
    + intros H j. rewrite skipn_nil. destruct (test []); [discriminate|reflexivity].
    + intros H. specialize (H 0). simpl in H. now rewrite H.
  - split.
    + intros H j. destruct (test (c :: s)) eqn:Ht; [discriminate|].
      destruct (Z.eqb_spec (firstIndex test s) (-1)) as [E|E].
      * destruct j as [|j]; [exact Ht|]. simpl. now apply IH.
      * pose proof (firstIndex_range test s). lia.
    + intros H. pose proof (H 0) as H0. simpl in H0. rewrite H0.
      assert (E : firstIndex test s = (-1)%Z).
      { apply IH. intros j. exact (H (S j)). }
      now rewrite E.
Qed.

Lemma firstIndex_found (test : jsstring -> bool) (s : jsstring) :
  forall k, firstIndex test s = Z.of_nat k ->
            test (skipn k s) = true
            /\ forall j, j < k -> test (skipn j s) = false.
Proof.
  induction s as [|c s IH]; intros k; simpl.
  - destruct (test []) eqn:Ht; [|lia].
    intros H. assert (k = 0) by lia. subst. split; [exact Ht | lia].
  - destruct (test (c :: s)) eqn:Ht.
    + intros H. assert (k = 0) by lia. subst. split; [exact Ht | lia].
    + destruct (Z.eqb_spec (firstIndex test s) (-1)) as [E|E]; [lia|].
      intros H. destruct k as [|k].
      * pose proof (firstIndex_range test s). lia.
      * destruct (IH k) as [Hk Hlt]; [lia|].
        split; [exact Hk|].
        intros [|j] Hj; [exact Ht|]. simpl. apply Hlt. lia.
Qed.

(** [search] finds the leftmost occurrence, and answers [-1] exactly when
    there is none. *)
Lemma search_none (pat s : jsstring) :
  search pat s = (-1)%Z <-> forall j, ~ occursAt pat s j.
Proof.
  unfold search, occursAt. rewrite firstIndex_none.
  split; intros H j; specialize (H j).
  - now rewrite H.
  - now destruct (matchesAt pat (skipn j s)).
Qed.

Lemma search_found (pat s : jsstring) :
  search pat s <> (-1)%Z ->
  exists k, search pat s = Z.of_nat k
            /\ occursAt pat s k
            /\ forall j, j < k -> ~ occursAt pat s j.
Proof.
  intros Hne. unfold search in *.
  destruct (firstIndex_range (matchesAt pat) s) as [E|R]; [congruence|].
  exists (Z.to_nat (firstIndex (matchesAt pat) s)).
  assert (E : firstIndex (matchesAt pat) s
              = Z.of_nat (Z.to_nat (firstIndex (matchesAt pat) s))) by lia.
  destruct (firstIndex_found _ _ _ E) as [Hk Hlt].
  split; [exact E|]. split; [exact Hk|].
  intros j Hj. unfold occursAt. now rewrite (Hlt j Hj).
Qed.

(** The loop over the patterns: either no pattern occurs, or the result is
    the leftmost occurrence of the first pattern of the list that occurs
    at all. *)
Lemma findXmlStart_spec (patterns : list jsstring) (s : jsstring) :
  (findXmlStart patterns s = (-1)%Z
   /\ Forall (fun p => search p s = (-1)%Z) patterns)
  \/ (exists before p after,
         patterns = before ++ p :: after
         /\ Forall (fun q => search q s = (-1)%Z) before
         /\ search p s <> (-1)%Z
         /\ findXmlStart patterns s = search p s).
Proof.
  induction patterns as [|p ps IH]; simpl.
  - left. split; [reflexivity | constructor].
  - destruct (Z.eqb_spec (search p s) (-1)) as [E|E].
    + destruct IH as [[H1 H2] | (before & q & after & Hps & Hb & Hq & Hf)].
      * left. split; [exact H1 | now constructor].
      * right. exists (p :: before), q, after. subst ps.
        split; [reflexivity|]. split; [now constructor|].
        split; [exact Hq | exact Hf].
    + right. exists [], p, ps. repeat split; auto.
Qed.

(** C2, as the code has it.  Step 3 goes through the five openers in the
    fixed order XML declaration, [urlset], [sitemapindex], [rss], [feed]:
    the first opener of that order that occurs anywhere in the text
    (ignoring case) decides, and the text is cut at the leftmost
    occurrence of that opener, even when an opener later in the order
    occurs further left.  When no opener occurs the text is unchanged. *)
Theorem cutToXmlStart_first_pattern_in_order (s : jsstring) :
  (Forall (fun p => forall k, ~ occursAt p s k) xmlStartPatterns
   /\ cutToXmlStart s = s)
  \/ (exists before p after k,
         xmlStartPatterns = before ++ p :: after
         /\ Forall (fun q => forall j, ~ occursAt q s j) before
         /\ occursAt p s k
         /\ (forall j, j < k -> ~ occursAt p s j)
         /\ cutToXmlStart s = skipn k s).
Proof.
  unfold cutToXmlStart.
  destruct (findXmlStart_spec xmlStartPatterns s)
    as [[H1 H2] | (before & p & after & Hps & Hb & Hp & Hf)].
  - left. rewrite H1. split; [|reflexivity].
    eapply Forall_impl; [|exact H2]. intros q Hq. now apply search_none.
  - right. destruct (search_found _ _ Hp) as (k & Hk & Hocc & Hleft).
    exists before, p, after, k.
    split; [exact Hps|]. split.
    { eapply Forall_impl; [|exact Hb]. intros q Hq. now apply search_none. }
    split; [exact Hocc|]. split; [exact Hleft|].
    rewrite Hf, Hk.
    destruct (Z.eqb_spec (Z.of_nat k) (-1)); [lia|].
    unfold substring. now rewrite Nat2Z.id.
Qed.

(** The five openers of the specification are those of the code, and the
    index the specification asks for is the leftmost index at which any
    of them occurs. *)
Lemma earliestOpener_leftmost (patterns : list jsstring) (s : jsstring) (k : nat) :
  earliestOpener patterns s = Z.of_nat k ->
  (exists p, In p patterns /\ occursAt p s k)
  /\ forall j p, j < k -> In p patterns -> ~ occursAt p s j.
Proof.
  intros H. apply firstIndex_found in H. destruct H as [Hk Hlt].
  split.
  - apply existsb_exists in Hk. exact Hk.
  - intros j p Hj Hin Hocc. specialize (Hlt j Hj).
    assert (existsb (fun p => matchesAt p (skipn j s)) patterns = true).
    { apply existsb_exists. now exists p. }
    congruence.
Qed.

(** C2 as stated fails: in ["<urlset><?xml"] the earliest opener is the
    [urlset] tag at index 0, so the specification keeps the whole text;
    the code looks for the XML declaration first, finds it at index 8 and
    cuts the [urlset] tag away. *)
Lemma cutToXmlStart_not_earliest :
  cutAtEarliestOpener (lit "<urlset><?xml") = lit "<urlset><?xml"
  /\ cutToXmlStart (lit "<urlset><?xml") = lit "<?xml"
  /\ cutToXmlStart (lit "<urlset><?xml")
     <> cutAtEarliestOpener (lit "<urlset><?xml").
Proof. vm_compute. repeat split; discriminate. Qed.

End XmlStart.

(* ================================================================== *)
(** ** Running the sanitizer twice *)
(* ================================================================== *)

Section Idempotence.

Lemma trimStart_app_kept (a b : jsstring) (c : codeunit) :
  isWhiteSpace c = false -> trimStart (a ++ c :: b) = trimStart a ++ c :: b.
Proof.
  intros Hc. induction a as [|x a IH]; simpl.
  - now rewrite Hc.
  - destruct (isWhiteSpace x); [exact IH | reflexivity].
Qed.

Lemma trimEnd_cons_kept (c : codeunit) (s : jsstring) :
  isWhiteSpace c = false -> trimEnd (c :: s) = c :: trimEnd s.
Proof.
  intros Hc. unfold trimEnd. simpl rev.
  rewrite trimStart_app_kept by exact Hc.
  rewrite rev_app_distr. reflexivity.
Qed.

Lemma trimStart_idem (s : jsstring) : trimStart (trimStart s) = trimStart s.
Proof.
  induction s as [|c s IH]; [reflexivity|].
  simpl. destruct (isWhiteSpace c) eqn:E; [exact IH|].
  simpl. now rewrite E.
Qed.

Lemma trimEnd_idem (s : jsstring) : trimEnd (trimEnd s) = trimEnd s.
Proof.
  unfold trimEnd. rewrite rev_involutive. now rewrite trimStart_idem.
Qed.

Lemma trimStart_head (s : jsstring) :
  trimStart s = [] \/ exists c r, trimStart s = c :: r /\ isWhiteSpace c = false.
Proof.
  induction s as [|c s IH]; [now left|].
  simpl. destruct (isWhiteSpace c) eqn:E; [exact IH|].
  right. now exists c, s.
Qed.

Lemma trim_idem (s : jsstring) : trim (trim s) = trim s.
Proof.
  unfold trim at 1.
  assert (H : trimStart (trim s) = trim s).
  { unfold trim. destruct (trimStart_head s) as [E | (c & r & E & Hc)]; rewrite E.
    - reflexivity.
    - rewrite trimEnd_cons_kept by exact Hc. simpl. now rewrite Hc. }
  rewrite H. unfold trim. apply trimEnd_idem.
Qed.

(** A non-empty suffix of a text without trailing white space has none
    either. *)
Lemma trimEnd_fixed_suffix (pre t : jsstring) :
  trimEnd (pre ++ t) = pre ++ t -> t <> [] -> trimEnd t = t.
Proof.
  unfold trimEnd. intros H Ht.
  assert (H' : trimStart (rev t ++ rev pre) = rev t ++ rev pre).
  { rewrite <- rev_app_distr. rewrite <- (rev_involutive (trimStart _)).
    now rewrite H. }
  destruct (rev t) as [|c r] eqn:E.
  - apply (f_equal (@rev _)) in E. rewrite rev_involutive in E. now subst.
  - simpl in H'. destruct (isWhiteSpace c) eqn:Hc.
    + pose proof (trimStart_length (r ++ rev pre)) as L.
      rewrite H' in L. simpl in L. lia.
    + simpl. rewrite Hc. rewrite <- E. apply rev_involutive.
Qed.

Lemma trim_fixed_end (s : jsstring) : trimEnd (trim s) = trim s.
Proof. unfold trim. apply trimEnd_idem. Qed.

Lemma canonicalize_LT (c : codeunit) :
  canonicalize LT = canonicalize c -> c = LT.
Proof.
  unfold canonicalize, LT. simpl.
  destruct (N.leb_spec 97 c); destruct (N.leb_spec c 122); simpl; lia.
Qed.

Lemma matchesAt_LT_head (p s : jsstring) :
  matchesAt (LT :: p) s = true -> exists r, s = LT :: r.
Proof.
  destruct s as [|c r]; [simpl; discriminate|].
  intros H.
  change (N.eqb (canonicalize LT) (canonicalize c) && matchesAt p r = true) in H.
  apply andb_true_iff in H. destruct H as [H _].
  apply N.eqb_eq in H. apply canonicalize_LT in H. subst. now exists r.
Qed.

Lemma matchesAt_app (p s post : jsstring) :
  matchesAt p s = true -> matchesAt p (s ++ post) = true.
Proof.
  revert s. induction p as [|c p IH]; intros s; [reflexivity|].
  destruct s as [|d s]; simpl; [discriminate|].
  intros H. apply andb_true_iff in H. destruct H as [H1 H2].
  rewrite H1. simpl. now apply IH.
Qed.

(** A pattern that occurs nowhere in a text occurs in none of its
    infixes. *)
Lemma search_none_infix (p pre y post : jsstring) :
  search p (pre ++ y ++ post) = (-1)%Z -> search p y = (-1)%Z.
Proof.
  rewrite !search_none. intros H j Hocc. unfold occursAt in *.
  apply (H (length pre + Nat.min j (length y))).
  rewrite skipn_app.
  rewrite skipn_all2 by lia. simpl.
  replace (length pre + Nat.min j (length y) - length pre)
    with (Nat.min j (length y)) by lia.
  rewrite skipn_app.
  apply matchesAt_app.
  destruct (Nat.le_ge_cases j (length y)) as [L|L].
  - now rewrite Nat.min_l by exact L.
  - rewrite Nat.min_r by exact L.
    rewrite skipn_all2 in Hocc by exact L.
    now rewrite skipn_all.
Qed.

Lemma search_at_start (p s : jsstring) :
  matchesAt p s = true -> search p s = 0%Z.
Proof. intros H. unfold search. destruct s; simpl; now rewrite H. Qed.

Lemma xmlStartPatterns_open :
  Forall (fun p => exists p', p = LT :: p') xmlStartPatterns.
Proof. repeat constructor; eexists; reflexivity. Qed.

(** Step 4 keeps a text that is empty or starts with [<]. *)
Lemma dropLeadingText_markup (s : jsstring) :
  s = [] \/ (exists r, s = LT :: r) -> dropLeadingText s = s.
Proof.
  intros [-> | [r ->]]; [reflexivity|].
  unfold dropLeadingText.
  assert (E : firstXmlLineFrom 0 (split LF (LT :: r)) = 0).
  { simpl split.
    destruct (split LF r) as [|l ls]; [reflexivity|].
    simpl firstXmlLineFrom. unfold trim. simpl trimStart.
    rewrite trimEnd_cons_kept by reflexivity. reflexivity. }
  now rewrite E.
Qed.

Lemma findXmlStart_none_infix (patterns : list jsstring) (pre y post : jsstring) :
  Forall (fun p => search p (pre ++ y ++ post) = (-1)%Z) patterns ->
  findXmlStart patterns y = (-1)%Z.
Proof.
  induction 1 as [|p ps Hp _ IH]; simpl; [reflexivity|].
  rewrite (search_none_infix _ _ _ _ Hp). exact IH.
Qed.

Lemma findXmlStart_at_start (before after : list jsstring) (p pre y post : jsstring) :
  Forall (fun q => search q (pre ++ y ++ post) = (-1)%Z) before ->
  matchesAt p y = true ->
  findXmlStart (before ++ p :: after) y = 0%Z.
Proof.
  induction 1 as [|q qs Hq _ IH]; simpl; intros Hm.
  - now rewrite (search_at_start _ _ Hm).
  - rewrite (search_none_infix _ _ _ _ Hq). simpl. now apply IH.
Qed.

(** Step 3 never changes a text the sanitizer has produced. *)
Lemma cutToXmlStart_stable (x : jsstring) :
  cutToXmlStart (cleanXmlContent x) = cleanXmlContent x.
Proof.
  unfold cleanXmlContent.
  set (c := trim (removeBrowserMessages x)).
  assert (Hc : trimEnd c = c) by apply trim_fixed_end.
  destruct (findXmlStart_spec xmlStartPatterns c)
    as [[H1 H2] | (before & p & after & Hps & Hb & Hp & Hf)].
  - (* no opener in the text: none in the result *)
    assert (Ecut : cutToXmlStart c = c).
    { unfold cutToXmlStart. now rewrite H1. }
    rewrite Ecut.
    destruct (dropLeadingText_suffix c) as [pre Hpre].
    destruct (trim_infix (dropLeadingText c)) as (a & b & Hab).
    unfold cutToXmlStart.
    rewrite (@findXmlStart_none_infix xmlStartPatterns (pre ++ a)
               (trim (dropLeadingText c)) b).
    + reflexivity.
    + rewrite <- app_assoc, <- Hab, <- Hpre. exact H2.
  - (* an opener found: the result starts with it *)
    destruct (search_found _ _ Hp) as (k & Hk & Hocc & _).
    assert (Ecut : cutToXmlStart c = skipn k c).
    { unfold cutToXmlStart. rewrite Hf, Hk.
      destruct (Z.eqb_spec (Z.of_nat k) (-1)) as [|_]; [lia|].
      unfold substring. now rewrite Nat2Z.id. }
    rewrite Ecut.
    set (t := skipn k c) in *.
    assert (Hin : In p xmlStartPatterns) by (rewrite Hps; apply in_elt).
    pose proof xmlStartPatterns_open as Hopen.
    rewrite Forall_forall in Hopen. destruct (Hopen p Hin) as [p' ->].
    unfold occursAt in Hocc. fold t in Hocc.
    destruct (matchesAt_LT_head _ _ Hocc) as [r Ht].
    assert (Hd : dropLeadingText t = t).
    { apply dropLeadingText_markup. right. now exists r. }
    assert (Htrim : trim t = t).
    { unfold trim. rewrite Ht at 1. simpl trimStart. rewrite <- Ht.
      apply (@trimEnd_fixed_suffix (firstn k c)).
      - unfold t. now rewrite firstn_skipn.
      - rewrite Ht. discriminate. }
    rewrite Hd, Htrim.
    unfold cutToXmlStart. rewrite Hps.
    rewrite (@findXmlStart_at_start before after (LT :: p') (firstn k c) t []).
    + reflexivity.
    + rewrite app_nil_r. unfold t. rewrite firstn_skipn. exact Hb.
    + exact Hocc.
Qed.

(** On a text the sanitizer has produced and that holds no notice, a
    second run does what step 4 and the final trim do. *)
Lemma cleanXmlContent_again (x : jsstring) :
  removeBrowserMessages (cleanXmlContent x) = cleanXmlContent x ->
  cleanXmlContent (cleanXmlContent x)
  = trim (dropLeadingText (cleanXmlContent x)).
Proof.
  intros H1.
  assert (Ht : trim (cleanXmlContent x) = cleanXmlContent x).
  { unfold cleanXmlContent. apply trim_idem. }
  unfold cleanXmlContent at 1.
  now rewrite H1, Ht, cutToXmlStart_stable.
Qed.

(** C3, amended.  When the output of the sanitizer holds none of the four
    browser notices (step 1 leaves it as it is), running the sanitizer on
    it gives the same text exactly when step 4 finds no line to drop in
    it; that is so, and the second run changes nothing, whenever the
    output is empty or starts with [<]. *)
Theorem cleanXmlContent_idempotent_on_markup (x : jsstring) :
  removeBrowserMessages (cleanXmlContent x) = cleanXmlContent x ->
  (cleanXmlContent (cleanXmlContent x) = cleanXmlContent x
   <-> dropLeadingText (cleanXmlContent x) = cleanXmlContent x)
  /\ (cleanXmlContent x = [] \/ (exists rest, cleanXmlContent x = LT :: rest) ->
      cleanXmlContent (cleanXmlContent x) = cleanXmlContent x).
Proof.
  intros H1.
  assert (Ht : trim (cleanXmlContent x) = cleanXmlContent x).
  { unfold cleanXmlContent. apply trim_idem. }
  rewrite (cleanXmlContent_again _ H1).
  split; [split|].
  - intros H.
    destruct (dropLeadingText_suffix (cleanXmlContent x)) as [pre Hpre].
    pose proof (trim_length (dropLeadingText (cleanXmlContent x))) as L.
    rewrite H in L.
    assert (Hlen : length (cleanXmlContent x)
                   = length pre + length (dropLeadingText (cleanXmlContent x))).
    { rewrite Hpre at 1. apply length_app. }
    destruct pre as [|c pre]; [now symmetry | simpl in Hlen; lia].
  - intros H. now rewrite H.
  - intros H2. now rewrite (dropLeadingText_markup H2).
Qed.

Lemma cleanXmlContent_idempotent_on_markup_witness :
  cleanXmlContent (lit "Sitemap follows" ++ [LF] ++ lit "<urlset></urlset>")
  = lit "<urlset></urlset>"
  /\ cleanXmlContent
       (cleanXmlContent (lit "Sitemap follows" ++ [LF] ++ lit "<urlset></urlset>"))
     = cleanXmlContent (lit "Sitemap follows" ++ [LF] ++ lit "<urlset></urlset>").
Proof.
  split; [vm_compute; reflexivity|].
  apply (@cleanXmlContent_idempotent_on_markup
           (lit "Sitemap follows" ++ [LF] ++ lit "<urlset></urlset>")).
  - vm_compute. reflexivity.
  - right. eexists. vm_compute. reflexivity.
Defined.

(** C3 as stated fails.  In the text of the four lines [x], empty, [y],
    [<z>] no opener occurs; step 4 drops the line before the empty line
    and the final trim removes the empty line, which leaves [y] and
    [<z>].  A second run drops [y] as well. *)
Lemma cleanXmlContent_not_idempotent :
  cleanXmlContent (lit "x" ++ [LF; LF] ++ lit "y" ++ [LF] ++ lit "<z>")
  = lit "y" ++ [LF] ++ lit "<z>"
  /\ cleanXmlContent (lit "y" ++ [LF] ++ lit "<z>") = lit "<z>"
  /\ cleanXmlContent
       (cleanXmlContent (lit "x" ++ [LF; LF] ++ lit "y" ++ [LF] ++ lit "<z>"))
     <> cleanXmlContent (lit "x" ++ [LF; LF] ++ lit "y" ++ [LF] ++ lit "<z>").
Proof.
  vm_compute. split; [reflexivity|]. split; [reflexivity | discriminate].
Qed.

(** A second way to the same failure: removing a notice can bring the two
    halves of another copy of it together, which only a second run
    removes. *)
Lemma removal_uncovers_notice :
  cleanXmlContent
    (lit "<a>The document tree is The document tree is shown below.shown below.")
  = lit "<a>The document tree is shown below."
  /\ cleanXmlContent (lit "<a>The document tree is shown below.") = lit "<a>".
Proof. vm_compute. split; reflexivity. Qed.

End Idempotence.

(* ================================================================== *)
(** ** Facts about the DOM queries and the two passes *)
(* ================================================================== *)

Section DomFacts.

Lemma eqb_refl (s : jsstring) : JsString.eqb s s = true.
Proof.
  induction s as [|c s IH]; [reflexivity|].
  simpl. now rewrite N.eqb_refl, IH.
Qed.

Lemma eqb_eq (s t : jsstring) : JsString.eqb s t = true <-> s = t.
Proof.
  split; [|intros ->; apply eqb_refl].
  revert t. induction s as [|c s IH]; intros [|d t]; simpl; try discriminate.
  - reflexivity.
  - intros H. apply andb_true_iff in H. destruct H as [H1 H2].
    apply N.eqb_eq in H1. apply IH in H2. now subst.
Qed.

Lemma descendants_unfold (e : Element) :
  descendants e
  = flat_map (fun n => match n with
                       | ElementNode c => c :: descendants c
                       | _ => []
                       end) (childNodes e).
Proof.
  destruct e as [p n a cs]. simpl.
  induction cs as [|[c|t|t] cs IH]; simpl; try exact IH; [reflexivity|].
  now rewrite IH.
Qed.

Lemma child_in_descendants (e c : Element) :
  In (ElementNode c) (childNodes e) -> In c (descendants e).
Proof.
  intros H. rewrite descendants_unfold. apply in_flat_map.
  exists (ElementNode c). split; [exact H | now left].
Qed.

(** When nothing but text and comments comes before a child element with
    the wanted name, that child is what [querySelector] returns. *)
Lemma querySelector_first_child (name : jsstring) (e c : Element)
      (before after : list Node) :
  childNodes e = before ++ ElementNode c :: after ->
  Forall (fun n => match n with ElementNode _ => False | _ => True end) before ->
  localName c = name ->
  querySelector [name] e = Some c.
Proof.
  intros Hc Hb Hn. unfold querySelector, querySelectorAll.
  rewrite descendants_unfold, Hc. clear Hc.
  induction Hb as [|n ns Hn' _ IH]; simpl.
  - unfold matchesSelector at 1. simpl. rewrite Hn, eqb_refl. reflexivity.
  - destruct n; [contradiction | exact IH | exact IH].
Qed.

Lemma pushEach_collected (entryOf : Element -> option SitemapEntry)
      (elements : list Element) :
  forall urls, pushEach entryOf elements urls = urls ++ collected entryOf elements.
Proof.
  unfold pushEach, collected.
  induction elements as [|el els IH]; intros urls; simpl.
  - now rewrite app_nil_r.
  - rewrite IH. destruct (entryOf el); [now rewrite <- app_assoc | reflexivity].
Qed.

Lemma collected_app (entryOf : Element -> option SitemapEntry)
      (xs ys : list Element) :
  collected entryOf (xs ++ ys) = collected entryOf xs ++ collected entryOf ys.
Proof. unfold collected. apply flat_map_app. Qed.

Lemma urlPass_collected (d : Document) :
  urlPass d = collected urlEntry (docQuerySelectorAll [lit "url"] d).
Proof. unfold urlPass. now rewrite pushEach_collected. Qed.

Lemma sitemapPass_collected (d : Document) :
  sitemapPass d = collected sitemapEntry (docQuerySelectorAll [lit "sitemap"] d).
Proof. unfold sitemapPass. now rewrite pushEach_collected. Qed.

(** The outcome in terms of the two passes. *)
Lemma extractFrom_passes (d : Document) :
  docQuerySelector [lit "parsererror"] d = None ->
  extractFrom d
  = match urlPass d with
    | _ :: _ => Extracted (urlPass d)
    | [] => match sitemapPass d with
            | _ :: _ => Extracted (sitemapPass d)
            | [] => Failed NoUrlsFound
            end
    end.
Proof.
  intros H. unfold extractFrom. rewrite H.
  fold (urlPass d). destruct (urlPass d) as [|r rs] eqn:E.
  - simpl. fold (sitemapPass d). now destruct (sitemapPass d).
  - reflexivity.
Qed.

Lemma extractFrom_parsererror (d : Document) :
  docQuerySelector [lit "parsererror"] d <> None ->
  extractFrom d = Failed InvalidXml.
Proof.
  intros H. unfold extractFrom.
  destruct (docQuerySelector [lit "parsererror"] d); [reflexivity | congruence].
Qed.

Lemma urlEntry_some (u l : Element) :
  querySelector [lit "loc"] u = Some l -> textContent l <> [] ->
  exists e, urlEntry u = Some e /\ url e = textContent l.
Proof.
  intros Hq Ht. unfold urlEntry, textOf. rewrite Hq. simpl.
  destruct (textContent l) as [|c s]; [congruence|].
  eexists. split; reflexivity.
Qed.

Lemma urlEntry_url (u : Element) (e : SitemapEntry) :
  urlEntry u = Some e ->
  textOf (querySelector [lit "loc"] u) = Some (url e) /\ url e <> [].
Proof.
  unfold urlEntry.
  destruct (textOf (querySelector [lit "loc"] u)) as [[|c s]|]; try discriminate.
  intros H. injection H as <-. simpl. split; [reflexivity | discriminate].
Qed.

Lemma sitemapEntry_url (u : Element) (e : SitemapEntry) :
  sitemapEntry u = Some e ->
  textOf (querySelector [lit "loc"] u) = Some (url e) /\ url e <> []
  /\ changeFrequency e = Some indexMarker /\ priority e = Some [].
Proof.
  unfold sitemapEntry.
  destruct (textOf (querySelector [lit "loc"] u)) as [[|c s]|]; try discriminate.
  intros H. injection H as <-. simpl.
  repeat split; try reflexivity. discriminate.
Qed.

Lemma sitemapEntry_hasLocation (u : Element) :
  hasLocation u = true <-> exists e, sitemapEntry u = Some e.
Proof.
  unfold hasLocation, sitemapEntry.
  destruct (textOf (querySelector [lit "loc"] u)) as [[|c s]|]; split;
    try discriminate; try (intros [e He]; discriminate).
  - intros _. eexists. reflexivity.
  - reflexivity.
Qed.

Lemma collected_In (entryOf : Element -> option SitemapEntry)
      (elements : list Element) (r : SitemapEntry) :
  In r (collected entryOf elements) <->
  exists el, In el elements /\ entryOf el = Some r.
Proof.
  unfold collected. rewrite in_flat_map. split.
  - intros (el & Hin & Hr). exists el. split; [exact Hin|].
    destruct (entryOf el); simpl in Hr; [|contradiction].
    destruct Hr as [->|[]]. reflexivity.
  - intros (el & Hin & Hr). exists el. split; [exact Hin|].
    rewrite Hr. now left.
Qed.

End DomFacts.

(* ================================================================== *)
(** ** The url pass *)
(* ================================================================== *)

Section UrlPass.

Lemma collected_urlEntry_all (elements : list Element) :
  Forall (fun u => exists l, querySelector [lit "loc"] u = Some l
                             /\ textContent l <> []) elements ->
  Forall2 (fun u r => exists l, querySelector [lit "loc"] u = Some l
                                /\ url r = textContent l)
          elements (collected urlEntry elements).
Proof.
  induction 1 as [|u us (l & Hq & Ht) _ IH]; [constructor|].
  destruct (urlEntry_some _ Hq Ht) as (e & He & Hu).
  unfold collected in *. simpl. rewrite He. simpl.
  constructor; [now exists l | exact IH].
Qed.

(** C1, amended.  For a document that holds no element named
    [parsererror] and has N >= 1 [url] elements, each of which has a [loc]
    descendant and the first of them in document order has non-empty text:
    [extract] returns exactly N records, in the document order of the [url]
    elements, and the [url] of the i-th record is the text of that first
    [loc] descendant of the i-th [url] element. *)
Theorem extractFrom_one_record_per_url (d : Document) :
  docQuerySelector [lit "parsererror"] d = None ->
  docQuerySelectorAll [lit "url"] d <> [] ->
  Forall (fun u => exists l, querySelector [lit "loc"] u = Some l
                             /\ textContent l <> [])
         (docQuerySelectorAll [lit "url"] d) ->
  exists records,
    extractFrom d = Extracted records
    /\ length records = length (docQuerySelectorAll [lit "url"] d)
    /\ Forall2 (fun u r => exists l, querySelector [lit "loc"] u = Some l
                                     /\ url r = textContent l)
               (docQuerySelectorAll [lit "url"] d) records.
Proof.
  intros Hpe Hne Hall.
  pose proof (collected_urlEntry_all Hall) as HF.
  exists (urlPass d).
  rewrite urlPass_collected.
  split; [|split; [symmetry; eapply Forall2_length; exact HF | exact HF]].
  rewrite (extractFrom_passes _ Hpe), urlPass_collected.
  destruct HF; [congruence | reflexivity].
Qed.

Lemma extractFrom_one_record_per_url_witness :
  exists records,
    extractFrom Samples.oneUrl = Extracted records
    /\ length records = length (docQuerySelectorAll [lit "url"] Samples.oneUrl)
    /\ Forall2 (fun u r => exists l, querySelector [lit "loc"] u = Some l
                                     /\ url r = textContent l)
               (docQuerySelectorAll [lit "url"] Samples.oneUrl) records.
Proof.
  apply (@extractFrom_one_record_per_url Samples.oneUrl).
  - vm_compute. reflexivity.
  - vm_compute. discriminate.
  - vm_compute. repeat constructor. eexists. split; [reflexivity | discriminate].
Defined.

(** In a [url] element whose first child element is its [loc], as the
    sitemap schema has it, the first [loc] descendant is that child. *)
Lemma loc_child_first (u l : Element) (before after : list Node) :
  childNodes u = before ++ ElementNode l :: after ->
  Forall (fun n => match n with ElementNode _ => False | _ => True end) before ->
  localName l = lit "loc" ->
  querySelector [lit "loc"] u = Some l /\ locChild u = Some l.
Proof.
  intros Hc Hb Hn. split; [eapply querySelector_first_child; eassumption|].
  unfold locChild, childElements. rewrite Hc. clear Hc.
  induction Hb as [|n ns Hn' _ IH].
  - cbn [flat_map app]. rewrite Hn. reflexivity.
  - destruct n; [contradiction | exact IH | exact IH].
Qed.

(** C1 as stated fails.  The one [url] element of
    [<urlset><url><loc></loc></url></urlset>] has a [loc] child, yet its
    text is empty, the element is skipped and [extract] fails with
    [NoUrlsFound].  The claim fails as well when a [loc] further down comes
    before the [loc] child, when the document holds an element named
    [parsererror], and when there is no [url] element at all (no outcome
    has zero records). *)
Lemma empty_loc_gives_no_record :
  extractFrom Samples.emptyLoc = Failed NoUrlsFound
  /\ ~ claimedUrlRecords Samples.emptyLoc
  /\ ~ claimedUrlRecords Samples.imageFirst
  /\ ~ claimedUrlRecords Samples.urlsWithParsererror
  /\ ~ claimedUrlRecords (mkDocument Samples.emptyUrlset).
Proof.
  split; [vm_compute; reflexivity|].
  split; [|split; [|split]]; intros H; destruct H as (records & Hr & HF);
    try (vm_compute; repeat constructor; discriminate);
    vm_compute in Hr; try discriminate.
  injection Hr as <-. vm_compute in HF.
  inversion HF as [|u r us rs (l & Hl & Hu) _]; subst.
  injection Hl as <-. vm_compute in Hu. discriminate.
Qed.

(** The [loc] that counts is the first one below the [url] element, child
    or not: an image location that comes before the [loc] child wins. *)
Lemma nested_loc_comes_first :
  exists r, extractFrom Samples.imageFirst = Extracted [r]
            /\ url r = lit "https://a.com/i.png".
Proof. eexists. split; vm_compute; reflexivity. Qed.

(** C8, amended.  A [url] element without any [loc] descendant, at
    whatever depth and with whatever prefix, pushes no record, and the
    records of the url pass are those of the other [url] elements, in
    their order. *)
Theorem url_without_loc_is_skipped (d : Document) (u : Element)
        (before after : list Element) :
  querySelector [lit "loc"] u = None ->
  docQuerySelectorAll [lit "url"] d = before ++ u :: after ->
  urlEntry u = None
  /\ urlPass d = collected urlEntry before ++ collected urlEntry after
  /\ forall urls, pushEach urlEntry [u] urls = urls.
Proof.
  intros Hq Hd.
  assert (Hu : urlEntry u = None).
  { unfold urlEntry. now rewrite Hq. }
  split; [exact Hu|]. split.
  - rewrite urlPass_collected, Hd, collected_app.
    unfold collected at 2. simpl. now rewrite Hu.
  - intros urls. simpl. now rewrite Hu.
Qed.

Lemma url_without_loc_is_skipped_witness :
  urlEntry Samples.bareUrl = None
  /\ urlPass Samples.secondWithoutLoc
     = collected urlEntry [Samples.plainUrl] ++ collected urlEntry []
  /\ forall urls, pushEach urlEntry [Samples.bareUrl] urls = urls.
Proof.
  apply (@url_without_loc_is_skipped
           Samples.secondWithoutLoc Samples.bareUrl [Samples.plainUrl] []).
  - vm_compute. reflexivity.
  - vm_compute. reflexivity.
Defined.

(** C8 as stated fails: the [url] element that holds only an image has no
    [loc] child, but the location of the image is a [loc] descendant, and
    a record with that location is returned. *)
Lemma image_loc_gives_a_record :
  childElements (lit "loc") Samples.imageOnlyUrl = []
  /\ (exists r, extractFrom Samples.imageOnly = Extracted [r]
                /\ url r = lit "https://a.com/i.png")
  /\ ~ claimedSkip Samples.imageOnlyUrl.
Proof.
  split; [vm_compute; reflexivity|]. split.
  - eexists. split; vm_compute; reflexivity.
  - intros H. assert (E : urlEntry Samples.imageOnlyUrl = None).
    { apply H. vm_compute. reflexivity. }
    vm_compute in E. discriminate.
Qed.

End UrlPass.

(* ================================================================== *)
(** ** The sitemap-index pass and the failures *)
(* ================================================================== *)

Section IndexPass.

Lemma collected_sitemapEntry_located (elements : list Element) :
  Forall2 (fun s r =>
             textOf (querySelector [lit "loc"] s) = Some (url r)
             /\ changeFrequency r = Some indexMarker
             /\ priority r = Some [])
          (filter hasLocation elements) (collected sitemapEntry elements).
Proof.
  induction elements as [|s ss IH]; [constructor|].
  unfold collected in *. simpl.
  destruct (hasLocation s) eqn:E.
  - apply sitemapEntry_hasLocation in E. destruct E as [e He].
    rewrite He. simpl. constructor; [|exact IH].
    destruct (sitemapEntry_url _ He) as (H1 & _ & H2 & H3). auto.
  - destruct (sitemapEntry s) as [e|] eqn:He; [|exact IH].
    assert (hasLocation s = true) by (apply sitemapEntry_hasLocation; eauto).
    congruence.
Qed.

(** C4, amended.  For a document that holds no element named
    [parsererror], in which the url pass produces no record and at least
    one [sitemap] element has a location: [extract] returns one record per
    [sitemap] element with a location, in document order, with the index
    marker as [changeFrequency] and the empty string as [priority]. *)
Theorem extractFrom_index_records (d : Document) :
  docQuerySelector [lit "parsererror"] d = None ->
  urlPass d = [] ->
  filter hasLocation (docQuerySelectorAll [lit "sitemap"] d) <> [] ->
  exists records,
    extractFrom d = Extracted records
    /\ length records
       = length (filter hasLocation (docQuerySelectorAll [lit "sitemap"] d))
    /\ Forall2 (fun s r =>
                  textOf (querySelector [lit "loc"] s) = Some (url r)
                  /\ changeFrequency r = Some indexMarker
                  /\ priority r = Some [])
               (filter hasLocation (docQuerySelectorAll [lit "sitemap"] d))
               records.
Proof.
  intros Hpe Hu Hne.
  pose proof (collected_sitemapEntry_located
                (docQuerySelectorAll [lit "sitemap"] d)) as HF.
  exists (sitemapPass d). rewrite sitemapPass_collected.
  split; [|split; [symmetry; eapply Forall2_length; exact HF | exact HF]].
  rewrite (extractFrom_passes _ Hpe), Hu, sitemapPass_collected.
  destruct HF; [congruence | reflexivity].
Qed.

Lemma extractFrom_index_records_witness :
  exists records,
    extractFrom Samples.index = Extracted records
    /\ length records
       = length (filter hasLocation
                        (docQuerySelectorAll [lit "sitemap"] Samples.index))
    /\ Forall2 (fun s r =>
                  textOf (querySelector [lit "loc"] s) = Some (url r)
                  /\ changeFrequency r = Some indexMarker
                  /\ priority r = Some [])
               (filter hasLocation
                       (docQuerySelectorAll [lit "sitemap"] Samples.index))
               records.
Proof.
  apply (@extractFrom_index_records Samples.index).
  - vm_compute. reflexivity.
  - vm_compute. reflexivity.
  - vm_compute. discriminate.
Defined.

(** C4 as stated fails: a well-formed sitemap index that holds an element
    named [parsererror] besides a [sitemap] element with a location is
    taken for the report of a parse error, and [extract] fails with
    [InvalidXml]. *)
Lemma parsererror_element_hides_index :
  extractFrom Samples.indexWithParsererror = Failed InvalidXml
  /\ ~ claimedIndexRecords Samples.indexWithParsererror.
Proof.
  split; [vm_compute; reflexivity|].
  intros H. destruct H as (records & Hr & _).
  - vm_compute. reflexivity.
  - vm_compute. discriminate.
  - vm_compute in Hr. discriminate.
Qed.

Lemma documentOf_malformed (report : list Node) :
  docQuerySelector [lit "parsererror"] (documentOf (Malformed report)) <> None.
Proof.
  unfold docQuerySelector, docQuerySelectorAll. simpl documentOf.
  cbn [documentElement filter].
  replace (matchesSelector [lit "parsererror"]
             (mkElement None (lit "parsererror") [] report)) with true
    by (vm_compute; reflexivity).
  discriminate.
Qed.

Lemma extractFrom_not_empty (d : Document) : extractFrom d <> Extracted [].
Proof.
  unfold extractFrom. cbv zeta.
  destruct (docQuerySelector [lit "parsererror"] d); [discriminate|].
  match goal with
  | |- (if length ?urls =? 0 then _ else _) <> _ => destruct urls
  end; simpl; discriminate.
Qed.

(** C6, amended.  [extract] never returns an empty list of records.  A text
    that does not parse fails with [InvalidXml], and so does a text that
    parses to a document holding an element named [parsererror]; a text
    that parses to a document without such an element, in which neither the
    url pass nor the sitemap-index pass produces a record, fails with
    [NoUrlsFound]. *)
Theorem extract_never_empty (xmlParse : jsstring -> ParseResult)
        (xmlText : jsstring) :
  extract xmlParse xmlText <> Extracted []
  /\ (forall report, xmlParse xmlText = Malformed report ->
                     extract xmlParse xmlText = Failed InvalidXml)
  /\ (forall root, xmlParse xmlText = WellFormed root ->
                   docQuerySelector [lit "parsererror"] (mkDocument root) <> None ->
                   extract xmlParse xmlText = Failed InvalidXml)
  /\ (forall root, xmlParse xmlText = WellFormed root ->
                   docQuerySelector [lit "parsererror"] (mkDocument root) = None ->
                   urlPass (mkDocument root) = [] ->
                   sitemapPass (mkDocument root) = [] ->
                   extract xmlParse xmlText = Failed NoUrlsFound).
Proof.
  unfold extract, parseFromString.
  split; [apply extractFrom_not_empty|].
  split; [|split].
  - intros report ->. apply extractFrom_parsererror, documentOf_malformed.
  - intros root -> H. now apply extractFrom_parsererror.
  - intros root -> Hpe Hu Hs. simpl documentOf.
    now rewrite (extractFrom_passes _ Hpe), Hu, Hs.
Qed.

Lemma extract_never_empty_witness :
  extract (fun _ => WellFormed Samples.emptyUrlset) (lit "<urlset/>")
  = Failed NoUrlsFound
  /\ extract (fun _ => Malformed []) (lit "<urlset>") = Failed InvalidXml.
Proof.
  split.
  - apply (proj2 (proj2 (proj2
             (extract_never_empty (fun _ => WellFormed Samples.emptyUrlset)
                                  (lit "<urlset/>"))))
             Samples.emptyUrlset);
      vm_compute; reflexivity.
  - apply (proj1 (proj2
             (extract_never_empty (fun _ => Malformed []) (lit "<urlset>")))
             []).
    reflexivity.
Defined.

(** C6 as stated fails: [<parsererror/>] parses, and neither pass finds
    anything in it, yet the failure is [InvalidXml], not [NoUrlsFound]. *)
Lemma parsererror_root_is_invalid :
  extractFrom (documentOf (WellFormed Samples.parsererrorRoot)) = Failed InvalidXml
  /\ ~ claimedFailures (WellFormed Samples.parsererrorRoot).
Proof.
  split; [vm_compute; reflexivity|].
  intros (_ & _ & H).
  specialize (H Samples.parsererrorRoot eq_refl).
  assert (E : extractFrom (documentOf (WellFormed Samples.parsererrorRoot))
              = Failed NoUrlsFound).
  { apply H; vm_compute; reflexivity. }
  vm_compute in E. discriminate.
Qed.

(** C7.  Every record [extract] returns has a non-empty [url]. *)
Theorem extract_urls_nonempty (xmlParse : jsstring -> ParseResult)
        (xmlText : jsstring) (records : list SitemapEntry) :
  extract xmlParse xmlText = Extracted records ->
  Forall (fun r => url r <> []) records.
Proof.
  unfold extract. generalize (parseFromString xmlParse xmlText). intros d H.
  destruct (docQuerySelector [lit "parsererror"] d) eqn:Hpe.
  - rewrite extractFrom_parsererror in H by congruence. discriminate.
  - rewrite (extractFrom_passes _ Hpe) in H.
    apply Forall_forall. intros r Hin.
    destruct (urlPass d) as [|r0 rs] eqn:Hu.
    + destruct (sitemapPass d) as [|s0 ss] eqn:Hs; [discriminate|].
      injection H as <-. rewrite <- Hs, sitemapPass_collected in Hin.
      apply collected_In in Hin. destruct Hin as (el & _ & He).
      now destruct (sitemapEntry_url _ He) as (_ & Hne & _).
    + injection H as <-. rewrite <- Hu, urlPass_collected in Hin.
      apply collected_In in Hin. destruct Hin as (el & _ & He).
      now destruct (urlEntry_url _ He) as (_ & Hne).
Qed.

Lemma extract_urls_nonempty_witness :
  exists records,
    extract (fun _ => WellFormed (documentElement Samples.oneUrl))
            (lit "<urlset><url><loc>https://a.com/</loc><priority>0.5</priority></url></urlset>")
    = Extracted records
    /\ Forall (fun r => url r <> []) records.
Proof.
  eexists. split; [vm_compute; reflexivity|].
  apply (@extract_urls_nonempty
           (fun _ => WellFormed (documentElement Samples.oneUrl))
           (lit "<urlset><url><loc>https://a.com/</loc><priority>0.5</priority></url></urlset>")).
  vm_compute. reflexivity.
Defined.

End IndexPass.

(* ================================================================== *)
(** ** Alternate links *)
(* ================================================================== *)

Section Alternates.

Lemma link_child_selected (urlElement alt : Element) :
  In (ElementNode alt) (childNodes urlElement) ->
  localName alt = lit "link" ->
  In alt (querySelectorAll linkSelector urlElement).
Proof.
  intros Hin Hn. unfold querySelectorAll. apply filter_In.
  split; [now apply child_in_descendants|].
  unfold matchesSelector, linkSelector. rewrite Hn. reflexivity.
Qed.

Lemma urlEntry_alternates (urlElement : Element) (entry : SitemapEntry) :
  urlEntry urlElement = Some entry ->
  alternates entry = alternatesOf urlElement.
Proof.
  unfold urlEntry.
  destruct (textOf (querySelector [lit "loc"] urlElement)) as [[|c s]|];
    try discriminate.
  intros H. injection H as <-. reflexivity.
Qed.

(** A link child of a [url] element is one of the link elements the
    alternates string is built from, none of which is skipped: the string
    is the pairs of all of them, in document order, joined by ["; "].  The
    pair of a link without [hreflang] starts with ["null: "], the pair of a
    link without [href] ends with [": null"]. *)
Lemma link_child_pair (urlElement alt : Element) :
  In (ElementNode alt) (childNodes urlElement) ->
  localName alt = lit "link" ->
  exists before after,
    querySelectorAll linkSelector urlElement = before ++ alt :: after
    /\ alternatesOf urlElement
       = Some (join (lit "; ")
                    (List.map alternatePair before
                     ++ alternatePair alt :: List.map alternatePair after))
    /\ (getAttribute (lit "hreflang") alt = None ->
        alternatePair alt
        = lit "null: " ++ interpolate (getAttribute (lit "href") alt))
    /\ (getAttribute (lit "href") alt = None ->
        alternatePair alt
        = interpolate (getAttribute (lit "hreflang") alt) ++ lit ": null").
Proof.
  intros Hin Hn.
  destruct (in_split _ _ (link_child_selected _ _ Hin Hn))
    as (before & after & Hsplit).
  exists before, after. split; [exact Hsplit|]. split.
  - unfold alternatesOf. rewrite Hsplit.
    rewrite length_app. simpl length.
    replace (0 <? length before + S (length after)) with true
      by (symmetry; apply Nat.ltb_lt; lia).
    now rewrite map_app.
  - split.
    + intros H. unfold alternatePair. rewrite H. reflexivity.
    + intros H. unfold alternatePair. rewrite H. reflexivity.
Qed.

(** C10, amended.  For a [url] element whose first [loc] descendant has
    non-empty text, so that a record is pushed for it: the record exists,
    and every link child of the element, also one that lacks [hreflang] or
    [href], contributes its pair to the alternates string of that record.
    The string is the pairs of all the link elements below the [url]
    element, in document order, joined by ["; "]; the pair of a link
    without [hreflang] starts with ["null: "] and the pair of a link
    without [href] ends with [": null"].  In a document without a
    [parsererror] element that record is among those [extract] returns. *)
Theorem alternates_null_in_record (urlElement loc alt : Element) :
  querySelector [lit "loc"] urlElement = Some loc ->
  textContent loc <> [] ->
  In (ElementNode alt) (childNodes urlElement) ->
  localName alt = lit "link" ->
  exists entry before after,
    urlEntry urlElement = Some entry
    /\ url entry = textContent loc
    /\ querySelectorAll linkSelector urlElement = before ++ alt :: after
    /\ alternates entry
       = Some (join (lit "; ")
                    (List.map alternatePair before
                     ++ alternatePair alt :: List.map alternatePair after))
    /\ (getAttribute (lit "hreflang") alt = None ->
        alternatePair alt
        = lit "null: " ++ interpolate (getAttribute (lit "href") alt))
    /\ (getAttribute (lit "href") alt = None ->
        alternatePair alt
        = interpolate (getAttribute (lit "hreflang") alt) ++ lit ": null")
    /\ (forall d, docQuerySelector [lit "parsererror"] d = None ->
                  In urlElement (docQuerySelectorAll [lit "url"] d) ->
                  exists records, extractFrom d = Extracted records
                                  /\ In entry records).
Proof.
  intros Hq Ht Hin Hn.
  destruct (urlEntry_some _ Hq Ht) as (entry & He & Hu).
  destruct (link_child_pair _ _ Hin Hn) as (before & after & Hs & Ha & H1 & H2).
  exists entry, before, after.
  split; [exact He|]. split; [exact Hu|]. split; [exact Hs|].
  split; [now rewrite (urlEntry_alternates _ He)|].
  split; [exact H1|]. split; [exact H2|].
  intros d Hpe Hd.
  assert (Hr : In entry (urlPass d)).
  { rewrite urlPass_collected. apply collected_In. now exists urlElement. }
  exists (urlPass d). split; [|exact Hr].
  rewrite (extractFrom_passes _ Hpe).
  destruct (urlPass d); [contradiction | reflexivity].
Qed.

Lemma alternates_null_in_record_witness :
  exists entry,
    urlEntry Samples.linkedUrl = Some entry
    /\ alternates entry
       = Some (lit "en: https://x/en; null: https://x/de; fr: https://x/fr")
    /\ extractFrom Samples.linked = Extracted [entry].
Proof.
  destruct (@alternates_null_in_record
              Samples.linkedUrl
              (mkElement None (lit "loc") [] [Samples.txt "https://x/"])
              Samples.linkWithoutLang)
    as (entry & before & after & He & _ & Hs & Ha & _).
  - vm_compute. reflexivity.
  - vm_compute. discriminate.
  - simpl. right. right. left. reflexivity.
  - reflexivity.
  - exists entry. split; [exact He|].
    vm_compute in He. injection He as <-.
    split; vm_compute; reflexivity.
Defined.

(** C10 as stated fails: the [url] element with an empty [loc] child and a
    link without [hreflang] has a [loc] child and a link child, but the
    guard on the location skips the element: no record is pushed, so
    there is no alternates string for the pair to be part of, and
    [extract] fails with [NoUrlsFound]. *)
Lemma empty_loc_gives_no_alternates :
  locChild Samples.emptyLocLinkedUrl <> None
  /\ urlEntry Samples.emptyLocLinkedUrl = None
  /\ extractFrom Samples.emptyLocLinked = Failed NoUrlsFound
  /\ ~ claimedAlternates Samples.emptyLocLinkedUrl Samples.linkWithoutLang.
Proof.
  split; [vm_compute; discriminate|].
  split; [vm_compute; reflexivity|].
  split; [vm_compute; reflexivity|].
  intros H. destruct H as (entry & before & after & He & _).
  - vm_compute. discriminate.
  - simpl. right. left. reflexivity.
  - reflexivity.
  - vm_compute in He. discriminate.
Qed.

End Alternates.

(* ================================================================== *)
(** ** The CSV text *)
(* ================================================================== *)

Section Csv.

Lemma orElse_empty (v : option jsstring) : orElse v [] = fieldOr v.
Proof. destruct v as [[|c s]|]; reflexivity. Qed.

Lemma csvRow_rowOf (r : SitemapEntry) : csvRow r = rowOf r.
Proof.
  unfold csvRow, rowOf, quoted. rewrite !orElse_empty.
  cbn [join]. rewrite <- !app_assoc. reflexivity.
Qed.

Lemma join_lines (h : jsstring) (rows : list jsstring) :
  join [LF] (h :: rows) = h ++ concat (List.map (fun l => LF :: l) rows).
Proof.
  revert h. induction rows as [|l rows IH]; intros h.
  - simpl. now rewrite app_nil_r.
  - rewrite join_cons by discriminate. rewrite IH. reflexivity.
Qed.

Lemma csvContent_toCsv (records : list SitemapEntry) :
  csvContent records = toCsv records.
Proof.
  unfold csvContent, toCsv. rewrite join_lines.
  replace (join (lit ",") headers) with headerRow by (vm_compute; reflexivity).
  f_equal. f_equal. rewrite map_map.
  apply map_ext. intros r. now rewrite csvRow_rowOf.
Qed.

(** C5, amended.  For a list of at least one record the text downloaded is
    the header row followed, for each record in order, by a newline and the
    five fields of the record, each between two double quotes and otherwise
    as it is, an absent or empty field giving two quotes with nothing
    between them; the record of the end-to-end example gives the second
    line of the specification.  For the empty list nothing is downloaded:
    the function returns at its first line. *)
Theorem downloadCSV_rows (records : list SitemapEntry) :
  (records <> [] -> downloadCSV records = Some (toCsv records))
  /\ downloadCSV [] = None
  /\ downloadCSV [Samples.sampleRecord]
     = Some (lit "URL,Last Modified,Change Frequency,Priority,Alternates"
             ++ [LF]
             ++ [QUOTE] ++ lit "https://a.com/" ++ [QUOTE] ++ lit ","
             ++ [QUOTE; QUOTE] ++ lit "," ++ [QUOTE; QUOTE] ++ lit ","
             ++ [QUOTE] ++ lit "0.5" ++ [QUOTE] ++ lit ","
             ++ [QUOTE; QUOTE]).
Proof.
  split; [|split; [reflexivity | vm_compute; reflexivity]].
  intros Hne. unfold downloadCSV.
  destruct records as [|r rs]; [congruence|].
  simpl length. simpl Nat.eqb. now rewrite csvContent_toCsv.
Qed.

Lemma downloadCSV_rows_witness :
  downloadCSV [Samples.sampleRecord] = Some (toCsv [Samples.sampleRecord]).
Proof.
  apply (proj1 (downloadCSV_rows [Samples.sampleRecord])).
  discriminate.
Defined.

(** C5 as stated fails on the empty list: the specification asks for the
    header row, the code downloads nothing. *)
Lemma downloadCSV_empty_gives_nothing :
  downloadCSV [] = None
  /\ toCsv [] = lit "URL,Last Modified,Change Frequency,Priority,Alternates"
  /\ ~ claimedCsv [].
Proof.
  split; [reflexivity|]. split; [vm_compute; reflexivity|].
  unfold claimedCsv. vm_compute. discriminate.
Qed.

(** Quotes and commas inside a value are not escaped. *)
Lemma csvRow_no_escaping :
  csvRow {| url := lit "a" ++ [QUOTE] ++ lit "b,c";
            lastModified := None; changeFrequency := None;
            priority := None; alternates := None |}
  = [QUOTE] ++ lit "a" ++ [QUOTE] ++ lit "b,c" ++ [QUOTE]
    ++ lit "," ++ [QUOTE; QUOTE] ++ lit "," ++ [QUOTE; QUOTE]
    ++ lit "," ++ [QUOTE; QUOTE] ++ lit "," ++ [QUOTE; QUOTE].
Proof. vm_compute. reflexivity. Qed.

End Csv.

(* ================================================================== *)
(** ** The page state and the examples of the specification *)
(* ================================================================== *)

Section Page.

Variable xmlParse : jsstring -> ParseResult.

(** [parseSitemap] never replaces stored entries by an empty list. *)
Lemma parseSitemap_keeps_entries (st : PageState) :
  sitemapData st <> [] -> sitemapData (parseSitemap xmlParse st) <> [].
Proof.
  intros H. unfold parseSitemap.
  destruct (_ && _); [exact H|].
  unfold run. destruct (chosenText st) as [text| |reason]; [|exact H|exact H].
  destruct (extract xmlParse text) as [urls|e] eqn:E; [|exact H].
  simpl. intros ->. unfold extract in E.
  now apply (@extractFrom_not_empty (parseFromString xmlParse text)).
Qed.

(** Without a file and without pasted text nothing happens. *)
Lemma parseSitemap_without_input (st : PageState) :
  file st = None -> trim (xmlContent st) = [] -> parseSitemap xmlParse st = st.
Proof.
  intros Hf Hx. unfold parseSitemap. now rewrite Hf, Hx.
Qed.

End Page.

Example sanitize_browser_view :
  cleanXmlContent
    (lit "This XML file does not appear to have any style information associated with it. The document tree is shown below."
     ++ [LF] ++ lit "<urlset><url/></urlset>  ")
  = lit "<urlset><url/></urlset>".
Proof. vm_compute. reflexivity. Qed.

Example sanitize_without_markup :
  cleanXmlContent (lit "  no markup here ") = lit "no markup here".
Proof. vm_compute. reflexivity. Qed.

Example extract_end_to_end :
  extractFrom Samples.oneUrl = Extracted [Samples.sampleRecord].
Proof. vm_compute. reflexivity. Qed.

Example extract_index :
  extractFrom Samples.index
  = Extracted
      [ {| url := lit "https://a.com/s1.xml";
           lastModified := Some (lit "2024-01-01");
           changeFrequency := Some (lit "Sitemap Index");
           priority := Some [];
           alternates := None |};
        {| url := lit "https://a.com/s2.xml";
           lastModified := Some [];
           changeFrequency := Some (lit "Sitemap Index");
           priority := Some [];
           alternates := None |} ].
Proof. vm_compute. reflexivity. Qed.

Example alternates_two_links :
  alternatesOf
    (mkElement None (lit "url") []
       [ Samples.el "loc" [ Samples.txt "https://x/" ];
         Samples.pel "xhtml" "link"
           [ (lit "hreflang", lit "en"); (lit "href", lit "https://x/en") ] [];
         Samples.pel "xhtml" "link"
           [ (lit "hreflang", lit "fr"); (lit "href", lit "https://x/fr") ] [] ])
  = Some (lit "en: https://x/en; fr: https://x/fr").
Proof. vm_compute. reflexivity. Qed.

Example header_only_text : csvContent [] = headerRow.
Proof. vm_compute. reflexivity. Qed.

(* ================================================================== *)
(** ** More about the sanitizer *)
(* ================================================================== *)

Section SanitizerShape.

Lemma trimEnd_last (s : jsstring) :
  trimEnd s = [] \/ exists r c, trimEnd s = r ++ [c] /\ isWhiteSpace c = false.
Proof.
  unfold trimEnd.
  destruct (trimStart_head (rev s)) as [E | (c & r & E & Hc)]; rewrite E.
  - now left.
  - right. exists (rev r), c. now split.
Qed.

(** A trimmed text is empty, or starts and ends with a code unit that is
    not white space. *)
Lemma trim_ends (s : jsstring) :
  trim s = []
  \/ ((exists c r, trim s = c :: r /\ isWhiteSpace c = false)
      /\ (exists r c, trim s = r ++ [c] /\ isWhiteSpace c = false)).
Proof.
  unfold trim.
  destruct (trimStart_head s) as [E | (c & r & E & Hc)]; rewrite E.
  - now left.
  - right. split.
    + rewrite trimEnd_cons_kept by exact Hc. now exists c, (trimEnd r).
    + destruct (trimEnd_last (c :: r)) as [E' | H]; [|exact H].
      rewrite trimEnd_cons_kept in E' by exact Hc. discriminate.
Qed.

Lemma Subseq_Forall (P : codeunit -> Prop) (s t : jsstring) :
  Subseq s t -> Forall P t -> Forall P s.
Proof.
  induction 1 as [|c s t _ IH|c s t _ IH]; intros H.
  - constructor.
  - inversion H; subst. constructor; auto.
  - inversion H; subst. auto.
Qed.

(** X1.  The sanitized text has no white space at either end, and a second
    trim leaves it as it is. *)
Theorem cleanXmlContent_trimmed (x : jsstring) :
  trim (cleanXmlContent x) = cleanXmlContent x
  /\ (cleanXmlContent x = []
      \/ ((exists c r, cleanXmlContent x = c :: r /\ isWhiteSpace c = false)
          /\ (exists r c, cleanXmlContent x = r ++ [c] /\ isWhiteSpace c = false))).
Proof.
  unfold cleanXmlContent. split; [apply trim_idem | apply trim_ends].
Qed.

(** X2.  A text of white space only, the empty text included, is sanitized to
    the empty text. *)
Theorem cleanXmlContent_of_blank (x : jsstring) :
  allSpace x -> cleanXmlContent x = [].
Proof.
  intros Hx.
  pose proof (Subseq_Forall (cleanXmlContent_Subseq x) Hx) as Hall.
  unfold cleanXmlContent in *.
  destruct (trim_ends (dropLeadingText
                         (cutToXmlStart (trim (removeBrowserMessages x)))))
    as [E | [(c & r & E & Hc) _]]; [exact E|].
  rewrite E in Hall. inversion Hall; subst. congruence.
Qed.

Lemma cleanXmlContent_of_blank_witness :
  cleanXmlContent [32; 9; LF; 13; 160; 65279]%N = [].
Proof.
  apply cleanXmlContent_of_blank.
  repeat constructor.
Defined.

End SanitizerShape.

(* ================================================================== *)
(** ** What the sanitizer keeps *)
(* ================================================================== *)

Section SanitizerKeeps.

(** Once step 3 has cut a text without trailing white space at an opener,
    steps 4 and 5 find nothing to remove. *)
Lemma cut_at_opener (c : jsstring) :
  trimEnd c = c ->
  findXmlStart xmlStartPatterns c <> (-1)%Z ->
  dropLeadingText (cutToXmlStart c) = cutToXmlStart c
  /\ trim (cutToXmlStart c) = cutToXmlStart c
  /\ exists q, In q xmlStartPatterns /\ matchesAt q (cutToXmlStart c) = true.
Proof.
  intros Hc Hfound.
  destruct (findXmlStart_spec xmlStartPatterns c)
    as [[H1 _] | (before & p & after & Hps & Hb & Hp & Hf)]; [congruence|].
  destruct (search_found _ _ Hp) as (k & Hk & Hocc & _).
  assert (Ecut : cutToXmlStart c = skipn k c).
  { unfold cutToXmlStart. rewrite Hf, Hk.
    destruct (Z.eqb_spec (Z.of_nat k) (-1)) as [|_]; [lia|].
    unfold substring. now rewrite Nat2Z.id. }
  rewrite Ecut. set (t := skipn k c) in *.
  assert (Hin : In p xmlStartPatterns) by (rewrite Hps; apply in_elt).
  pose proof xmlStartPatterns_open as Hopen.
  rewrite Forall_forall in Hopen. destruct (Hopen p Hin) as [p' Hp'].
  unfold occursAt in Hocc. fold t in Hocc.
  assert (Hhead : exists r, t = LT :: r).
  { rewrite Hp' in Hocc. exact (matchesAt_LT_head _ _ Hocc). }
  destruct Hhead as [r Ht].
  split; [|split].
  - apply dropLeadingText_markup. right. now exists r.
  - unfold trim. rewrite Ht at 1. simpl trimStart. rewrite <- Ht.
    apply (@trimEnd_fixed_suffix (firstn k c)).
    + unfold t. now rewrite firstn_skipn.
    + rewrite Ht. discriminate.
  - now exists p.
Qed.

(** X3.  When one of the five openers occurs in the text left by steps 1 and 2,
    the sanitized text is exactly what step 3 cuts out: it starts with an
    opener, and the scan of the lines and the last trim remove nothing. *)
Theorem cleanXmlContent_from_opener (x p : jsstring) (k : nat) :
  In p xmlStartPatterns ->
  occursAt p (trim (removeBrowserMessages x)) k ->
  cleanXmlContent x = cutToXmlStart (trim (removeBrowserMessages x))
  /\ exists q, In q xmlStartPatterns /\ matchesAt q (cleanXmlContent x) = true.
Proof.
  intros Hin Hocc. unfold cleanXmlContent.
  set (c := trim (removeBrowserMessages x)) in *.
  assert (Hfound : findXmlStart xmlStartPatterns c <> (-1)%Z).
  { destruct (findXmlStart_spec xmlStartPatterns c)
      as [[_ H2] | (before & q & after & _ & _ & Hq & Hf)].
    - rewrite Forall_forall in H2. specialize (H2 p Hin).
      rewrite search_none in H2. now destruct (H2 k).
    - congruence. }
  destruct (@cut_at_opener c (trim_fixed_end _) Hfound) as (Hd & Ht & Hq).
  rewrite Hd, Ht. split; [reflexivity | exact Hq].
Qed.

Lemma cleanXmlContent_from_opener_witness :
  cleanXmlContent (lit "HTTP/1.1 200 OK <?XML version='1.0'?><urlset/> ")
  = cutToXmlStart
      (trim (removeBrowserMessages
               (lit "HTTP/1.1 200 OK <?XML version='1.0'?><urlset/> ")))
  /\ exists q, In q xmlStartPatterns
               /\ matchesAt q
                    (cleanXmlContent
                       (lit "HTTP/1.1 200 OK <?XML version='1.0'?><urlset/> "))
                  = true.
Proof.
  apply (@cleanXmlContent_from_opener
           (lit "HTTP/1.1 200 OK <?XML version='1.0'?><urlset/> ")
           (lit "<?xml") 16).
  - left. reflexivity.
  - vm_compute. reflexivity.
Defined.

(** X4.  A text that holds no browser notice, has no white space at its ends
    and starts with an opener is returned as it is, provided no opener
    earlier in the order occurs in it. *)
Theorem cleanXmlContent_keeps_markup (x p : jsstring)
        (before after : list jsstring) :
  removeBrowserMessages x = x ->
  trim x = x ->
  xmlStartPatterns = before ++ p :: after ->
  Forall (fun q => forall j, ~ occursAt q x j) before ->
  matchesAt p x = true ->
  cleanXmlContent x = x.
Proof.
  intros Hrbm Htrim Hps Hb Hm.
  unfold cleanXmlContent. rewrite Hrbm, Htrim.
  assert (Hcut : cutToXmlStart x = x).
  { unfold cutToXmlStart. rewrite Hps.
    rewrite (@findXmlStart_at_start before after p [] x []); [reflexivity| |exact Hm].
    simpl. rewrite app_nil_r.
    eapply Forall_impl; [|exact Hb]. intros q Hq. now apply search_none. }
  rewrite Hcut.
  assert (Hin : In p xmlStartPatterns) by (rewrite Hps; apply in_elt).
  pose proof xmlStartPatterns_open as Hopen.
  rewrite Forall_forall in Hopen. destruct (Hopen p Hin) as [p' Hp'].
  rewrite Hp' in Hm. destruct (matchesAt_LT_head _ _ Hm) as [r Hx].
  rewrite dropLeadingText_markup; [exact Htrim|].
  right. now exists r.
Qed.

Lemma cleanXmlContent_keeps_markup_witness :
  cleanXmlContent (lit "<URLSET><url><loc>https://a.com/</loc></url></URLSET>")
  = lit "<URLSET><url><loc>https://a.com/</loc></url></URLSET>".
Proof.
  apply (@cleanXmlContent_keeps_markup
           (lit "<URLSET><url><loc>https://a.com/</loc></url></URLSET>")
           (lit "<urlset") [lit "<?xml"] [lit "<sitemapindex"; lit "<rss"; lit "<feed"]).
  - vm_compute. reflexivity.
  - vm_compute. reflexivity.
  - reflexivity.
  - constructor; [|constructor]. apply search_none. vm_compute. reflexivity.
  - vm_compute. reflexivity.
Defined.

Lemma firstXmlLineFrom_cons (i : nat) (l : jsstring) (ls : list jsstring) :
  firstXmlLineFrom i (l :: ls)
  = if isXmlLine l then i else firstXmlLineFrom (S i) ls.
Proof. reflexivity. Qed.

Lemma firstXmlLineFrom_found (before after : list jsstring) (l : jsstring) :
  Forall (fun l => isXmlLine l = false) before ->
  isXmlLine l = true ->
  forall i, firstXmlLineFrom i (before ++ l :: after) = i + length before.
Proof.
  intros Hb Hl. induction Hb as [|b bs Hb' _ IH]; intros i.
  - simpl app. rewrite firstXmlLineFrom_cons, Hl. simpl. lia.
  - simpl app. rewrite firstXmlLineFrom_cons, Hb', IH. simpl. lia.
Qed.

Lemma firstXmlLineFrom_none (lines : list jsstring) :
  Forall (fun l => isXmlLine l = false) lines ->
  forall i, firstXmlLineFrom i lines = 0.
Proof.
  induction 1 as [|b bs Hb' _ IH]; intros i; [reflexivity|].
  rewrite firstXmlLineFrom_cons, Hb'. apply IH.
Qed.

(** X5.  Step 4 drops the lines before the first line that is blank or starts
    with [<], and nothing else; a text with no such line is kept whole. *)
Theorem dropLeadingText_from_first_markup_line (s : jsstring) :
  (Forall (fun l => isXmlLine l = false) (split LF s) -> dropLeadingText s = s)
  /\ (forall before l after,
         split LF s = before ++ l :: after ->
         Forall (fun l => isXmlLine l = false) before ->
         isXmlLine l = true ->
         dropLeadingText s = join [LF] (l :: after)).
Proof.
  split.
  - intros H. unfold dropLeadingText.
    now rewrite (@firstXmlLineFrom_none _ H).
  - intros before l after Hs Hb Hl. unfold dropLeadingText, slice.
    rewrite Hs, (@firstXmlLineFrom_found before after l Hb Hl). simpl Nat.add.
    destruct before as [|b bs].
    + simpl. rewrite <- (join_split LF s) at 1. now rewrite Hs.
    + replace (0 <? length (b :: bs)) with true by reflexivity.
      rewrite skipn_app, skipn_all, Nat.sub_diag. reflexivity.
Qed.

Lemma dropLeadingText_from_first_markup_line_witness :
  dropLeadingText (lit "HTTP 200" ++ [LF] ++ lit "  <urlset>" ++ [LF] ++ lit "text")
  = join [LF] [lit "  <urlset>"; lit "text"].
Proof.
  apply (proj2 (dropLeadingText_from_first_markup_line
                  (lit "HTTP 200" ++ [LF] ++ lit "  <urlset>" ++ [LF] ++ lit "text"))
               [lit "HTTP 200"] (lit "  <urlset>") [lit "text"]).
  - vm_compute. reflexivity.
  - repeat constructor.
  - vm_compute. reflexivity.
Defined.

End SanitizerKeeps.

(* ================================================================== *)
(** ** White space around the text does not matter *)
(* ================================================================== *)

Section SanitizerMargins.

Lemma space_canonical (d : codeunit) :
  isWhiteSpace d = true ->
  canonicalize d = d /\ (d <= 32 \/ 160 <= d)%N.
Proof.
  unfold isWhiteSpace, canonicalize. intros H.
  repeat (apply orb_true_iff in H; destruct H as [H|H]);
    try (apply andb_true_iff in H; destruct H as [H1 H2];
         apply N.leb_le in H1; apply N.leb_le in H2);
    try apply N.eqb_eq in H;
    destruct (N.leb_spec 97 d); destruct (N.leb_spec d 122); simpl; lia.
Qed.

Lemma solid_not_space (c d : codeunit) :
  solid c = true -> isWhiteSpace d = true ->
  N.eqb (canonicalize c) (canonicalize d) = false.
Proof.
  unfold solid. intros Hc Hd.
  apply andb_true_iff in Hc. destruct Hc as [H1 H2].
  apply N.ltb_lt in H1. apply N.ltb_lt in H2.
  destruct (space_canonical _ Hd) as [E R]. rewrite E.
  apply N.eqb_neq. lia.
Qed.

Lemma matchesAt_length (p s : jsstring) :
  matchesAt p s = true -> length p <= length s.
Proof.
  revert s. induction p as [|c p IH]; intros s; simpl; [lia|].
  destruct s as [|d s]; [discriminate|].
  intros H. apply andb_true_iff in H. destruct H as [_ H].
  apply IH in H. simpl. lia.
Qed.

(** A pattern that ends in a solid code unit does not match inside white
    space. *)
Lemma matchesAt_space (c0 : codeunit) (p : jsstring) :
  p <> [] -> solid (last p c0) = true ->
  forall w, allSpace w -> matchesAt p w = false.
Proof.
  induction p as [|a p IH]; [congruence|]. intros _ Hlast w Hw.
  destruct Hw as [|d w Hd Hw]; [reflexivity|].
  destruct p as [|b p].
  - simpl in Hlast. simpl. now rewrite (solid_not_space _ _ Hlast Hd).
  - change (matchesAt (a :: b :: p) (d :: w))
      with (N.eqb (canonicalize a) (canonicalize d) && matchesAt (b :: p) w).
    rewrite IH; [apply andb_false_r | discriminate | exact Hlast | exact Hw].
Qed.

(** Such a pattern matches in [s ++ w], with [w] white space, only where
    it matches in [s]. *)
Lemma matchesAt_before_space (c0 : codeunit) (w : jsstring) (p : jsstring) :
  p <> [] -> solid (last p c0) = true -> allSpace w ->
  forall s, matchesAt p (s ++ w) = matchesAt p s.
Proof.
  intros Hp Hlast Hw.
  induction p as [|a p IH]; [congruence|]. intros [|c s].
  - simpl app. rewrite (matchesAt_space c0 Hp Hlast Hw). reflexivity.
  - destruct p as [|b p]; [reflexivity|].
    simpl app.
    change (matchesAt (a :: b :: p) (c :: s ++ w))
      with (N.eqb (canonicalize a) (canonicalize c)
            && matchesAt (b :: p) (s ++ w)).
    rewrite IH; [reflexivity | discriminate | exact Hlast].
Qed.

Lemma replaceFrom_space (p w : jsstring) :
  solidEnds p = true -> allSpace w -> replaceFrom p 0 w = w.
Proof.
  intros Hp Hw. induction Hw as [|d w Hd _ IH]; [reflexivity|].
  destruct p as [|a p]; [discriminate|].
  unfold solidEnds in Hp. apply andb_true_iff in Hp. destruct Hp as [Ha _].
  cbn [replaceFrom].
  replace (matchesAt (a :: p) (d :: w)) with false.
  - now rewrite IH.
  - symmetry. cbn [matchesAt]. now rewrite (solid_not_space _ _ Ha Hd).
Qed.

Lemma replaceFrom_after_space (p w s : jsstring) :
  solidEnds p = true -> allSpace w ->
  replaceFrom p 0 (w ++ s) = w ++ replaceFrom p 0 s.
Proof.
  intros Hp Hw. induction Hw as [|d w Hd _ IH]; [reflexivity|].
  destruct p as [|a p]; [discriminate|].
  pose proof Hp as Hp'.
  unfold solidEnds in Hp'. apply andb_true_iff in Hp'. destruct Hp' as [Ha _].
  simpl app. cbn [replaceFrom].
  replace (matchesAt (a :: p) (d :: w ++ s)) with false.
  - now rewrite IH.
  - symmetry. cbn [matchesAt]. now rewrite (solid_not_space _ _ Ha Hd).
Qed.

Lemma replaceFrom_before_space (p w : jsstring) :
  solidEnds p = true -> allSpace w ->
  forall s k, k <= length s ->
              replaceFrom p k (s ++ w) = replaceFrom p k s ++ w.
Proof.
  intros Hp Hw.
  assert (Hne : p <> []) by (destruct p; [discriminate | discriminate]).
  assert (Hlast : solid (last p 0%N) = true).
  { destruct p as [|a p]; [discriminate|].
    unfold solidEnds in Hp. apply andb_true_iff in Hp. destruct Hp as [_ Hl].
    destruct p as [|b p]; [exact Hl|].
    simpl in Hl |- *. clear - Hl. revert b Hl.
    induction p as [|x p IH]; intros b Hl; [exact Hl|].
    simpl in Hl |- *. now apply IH. }
  induction s as [|c s IH]; intros k Hk.
  - simpl in Hk. assert (k = 0) by lia. subst.
    simpl. now apply replaceFrom_space.
  - simpl app. destruct k as [|k].
    + cbn [replaceFrom].
      change (c :: s ++ w) with ((c :: s) ++ w).
      rewrite (matchesAt_before_space 0%N Hne Hlast Hw).
      destruct (matchesAt p (c :: s)) eqn:Hm.
      * apply IH. apply matchesAt_length in Hm. simpl in Hm. lia.
      * simpl. f_equal. apply IH. lia.
    + cbn [replaceFrom]. apply IH. simpl in Hk. lia.
Qed.

(** Removing a notice leaves the white space around the text alone. *)
Lemma removeAll_margins (p w1 s w2 : jsstring) :
  solidEnds p = true -> allSpace w1 -> allSpace w2 ->
  removeAll p (w1 ++ s ++ w2) = w1 ++ removeAll p s ++ w2.
Proof.
  intros Hp H1 H2. unfold removeAll.
  rewrite replaceFrom_after_space by assumption.
  now rewrite replaceFrom_before_space by (assumption || lia).
Qed.

Lemma removeBrowserMessages_margins (w1 s w2 : jsstring) :
  allSpace w1 -> allSpace w2 ->
  removeBrowserMessages (w1 ++ s ++ w2) = w1 ++ removeBrowserMessages s ++ w2.
Proof.
  intros H1 H2. unfold removeBrowserMessages.
  now rewrite !removeAll_margins by (assumption || reflexivity).
Qed.

Lemma trimStart_space (w s : jsstring) :
  allSpace w -> trimStart (w ++ s) = trimStart s.
Proof.
  induction 1 as [|d w Hd _ IH]; [reflexivity|].
  simpl. now rewrite Hd.
Qed.

Lemma trimEnd_space (s w : jsstring) :
  allSpace w -> trimEnd (s ++ w) = trimEnd s.
Proof.
  intros Hw. unfold trimEnd. rewrite rev_app_distr.
  rewrite trimStart_space; [reflexivity|].
  apply Forall_rev. exact Hw.
Qed.

Lemma trim_margins (w1 s w2 : jsstring) :
  allSpace w1 -> allSpace w2 -> trim (w1 ++ s ++ w2) = trim s.
Proof.
  intros H1 H2. unfold trim. rewrite (trimStart_space _ H1).
  induction s as [|c s IH].
  - simpl app. replace (trimStart w2) with (@nil codeunit); [reflexivity|].
    symmetry. rewrite <- (app_nil_r w2). now rewrite trimStart_space.
  - simpl. destruct (isWhiteSpace c); [exact IH|].
    change (c :: s ++ w2) with ((c :: s) ++ w2). now apply trimEnd_space.
Qed.

Lemma trimStart_margin (s : jsstring) :
  exists w, allSpace w /\ s = w ++ trimStart s.
Proof.
  induction s as [|c s (w & Hw & IH)]; [exists []; split; [constructor | reflexivity]|].
  simpl. destruct (isWhiteSpace c) eqn:E.
  - exists (c :: w). split; [now constructor|]. simpl. now rewrite <- IH.
  - exists []. split; [constructor | reflexivity].
Qed.

Lemma trim_margin (s : jsstring) :
  exists w1 w2, allSpace w1 /\ allSpace w2 /\ s = w1 ++ trim s ++ w2.
Proof.
  destruct (trimStart_margin s) as (w1 & H1 & E1).
  destruct (trimStart_margin (rev (trimStart s))) as (w2 & H2 & E2).
  exists w1, (rev w2). split; [exact H1|]. split; [now apply Forall_rev|].
  unfold trim, trimEnd. rewrite <- rev_app_distr, <- E2, rev_involutive.
  exact E1.
Qed.

Lemma cleanXmlContent_margins (w1 x w2 : jsstring) :
  allSpace w1 -> allSpace w2 ->
  cleanXmlContent (w1 ++ x ++ w2) = cleanXmlContent x.
Proof.
  intros H1 H2. unfold cleanXmlContent.
  now rewrite removeBrowserMessages_margins, trim_margins by assumption.
Qed.

Lemma cleanXmlContent_trim (x : jsstring) :
  cleanXmlContent (trim x) = cleanXmlContent x.
Proof.
  destruct (trim_margin x) as (w1 & w2 & H1 & H2 & E).
  rewrite E at 2. symmetry. now apply cleanXmlContent_margins.
Qed.

(** X6.  White space around the raw text never changes the sanitized text; in
    particular trimming the raw text first, as the page does with pasted
    text, makes no difference. *)
Theorem cleanXmlContent_ignores_margins (x : jsstring) :
  cleanXmlContent (trim x) = cleanXmlContent x
  /\ forall w1 w2, allSpace w1 -> allSpace w2 ->
                   cleanXmlContent (w1 ++ x ++ w2) = cleanXmlContent x.
Proof.
  split; [apply cleanXmlContent_trim|].
  intros w1 w2. apply cleanXmlContent_margins.
Qed.

Lemma cleanXmlContent_ignores_margins_witness :
  cleanXmlContent ([32; LF]%N ++ lit "junk <urlset/>" ++ [9; 13; LF]%N)
  = cleanXmlContent (lit "junk <urlset/>").
Proof.
  apply (proj2 (cleanXmlContent_ignores_margins (lit "junk <urlset/>"))).
  - repeat constructor.
  - repeat constructor.
Defined.

End SanitizerMargins.

(* ================================================================== *)
(** ** More about the records *)
(* ================================================================== *)

Section Records.

Lemma collected_length (entryOf : Element -> option SitemapEntry)
      (elements : list Element) :
  length (collected entryOf elements) <= length elements.
Proof.
  unfold collected. induction elements as [|el els IH]; simpl; [lia|].
  rewrite length_app. destruct (entryOf el); simpl; lia.
Qed.

(** X8.  The records of a successful extraction come from one pass only: they
    are the records of the url pass, or, when that pass found none, those
    of the sitemap-index pass; [sitemap] elements beside a [url] element
    that gives a record are ignored.  There are never more records than
    elements of the kind, and there is at least one. *)
Theorem extractFrom_single_pass (d : Document) (records : list SitemapEntry) :
  extractFrom d = Extracted records ->
  docQuerySelector [lit "parsererror"] d = None
  /\ 1 <= length records
  /\ ((records = urlPass d
       /\ length records <= length (docQuerySelectorAll [lit "url"] d))
      \/ (urlPass d = []
          /\ records = sitemapPass d
          /\ length records <= length (docQuerySelectorAll [lit "sitemap"] d))).
Proof.
  intros H.
  destruct (docQuerySelector [lit "parsererror"] d) eqn:Hpe.
  { rewrite extractFrom_parsererror in H by congruence. discriminate. }
  split; [reflexivity|].
  rewrite (extractFrom_passes _ Hpe) in H.
  destruct (urlPass d) as [|r rs] eqn:Hu.
  - destruct (sitemapPass d) as [|s ss] eqn:Hs; [discriminate|].
    injection H as <-. split; [simpl; lia|]. right.
    split; [reflexivity|]. split; [reflexivity|].
    rewrite <- Hs, sitemapPass_collected. apply collected_length.
  - injection H as <-. split; [simpl; lia|]. left.
    split; [reflexivity|].
    rewrite <- Hu, urlPass_collected. apply collected_length.
Qed.

Lemma extractFrom_single_pass_witness :
  docQuerySelector [lit "parsererror"] Samples.index = None
  /\ 1 <= length (sitemapPass Samples.index)
  /\ ((sitemapPass Samples.index = urlPass Samples.index
       /\ length (sitemapPass Samples.index)
          <= length (docQuerySelectorAll [lit "url"] Samples.index))
      \/ (urlPass Samples.index = []
          /\ sitemapPass Samples.index = sitemapPass Samples.index
          /\ length (sitemapPass Samples.index)
             <= length (docQuerySelectorAll [lit "sitemap"] Samples.index))).
Proof.
  apply (@extractFrom_single_pass Samples.index (sitemapPass Samples.index)).
  vm_compute. reflexivity.
Defined.

Lemma join_nonempty (sep l : jsstring) (ls : list jsstring) :
  l <> [] -> join sep (l :: ls) <> [].
Proof.
  intros Hl. destruct ls; simpl; [exact Hl|].
  destruct l; [congruence | discriminate].
Qed.

Lemma alternatePair_nonempty (alt : Element) : alternatePair alt <> [].
Proof.
  unfold alternatePair. intros H.
  apply (f_equal (@length _)) in H. rewrite !length_app in H.
  simpl in H. lia.
Qed.

Lemma alternatesOf_set (u : Element) :
  (alternatesOf u = None <-> querySelectorAll linkSelector u = [])
  /\ alternatesOf u <> Some [].
Proof.
  unfold alternatesOf.
  destruct (querySelectorAll linkSelector u) as [|a alts]; simpl.
  - split; [split; reflexivity | discriminate].
  - split; [split; discriminate|].
    intros H. injection H as H.
    apply (f_equal (@length _)) in H.
    pose proof (alternatePair_nonempty a) as Hne.
    destruct alts; simpl in H.
    + destruct (alternatePair a); [congruence | discriminate].
    + rewrite length_app in H. destruct (alternatePair a); [congruence|].
      simpl in H. lia.
Qed.

(** X9.  In every record [extract] returns, [lastModified], [changeFrequency]
    and [priority] are set, if only to the empty string; [alternates] is
    the one field that can be unset, and when it is set it is not empty.
    For the record of a [url] element it is unset exactly when the element
    has no link element below it. *)
Theorem extractFrom_fields (d : Document) (records : list SitemapEntry) :
  extractFrom d = Extracted records ->
  Forall (fun r => lastModified r <> None
                   /\ changeFrequency r <> None
                   /\ priority r <> None
                   /\ alternates r <> Some []) records
  /\ (forall u r, urlEntry u = Some r ->
                  (alternates r = None
                   <-> querySelectorAll linkSelector u = [])).
Proof.
  intros H. split.
  - destruct (docQuerySelector [lit "parsererror"] d) eqn:Hpe.
    { rewrite extractFrom_parsererror in H by congruence. discriminate. }
    rewrite (extractFrom_passes _ Hpe) in H.
    apply Forall_forall. intros r Hin.
    assert (Hr : (exists u, urlEntry u = Some r)
                 \/ (exists u, sitemapEntry u = Some r)).
    { destruct (urlPass d) as [|r0 rs] eqn:Hu.
      - destruct (sitemapPass d) as [|s0 ss] eqn:Hs; [discriminate|].
        injection H as <-. rewrite <- Hs, sitemapPass_collected in Hin.
        apply collected_In in Hin. destruct Hin as (el & _ & He). eauto.
      - injection H as <-. rewrite <- Hu, urlPass_collected in Hin.
        apply collected_In in Hin. destruct Hin as (el & _ & He). eauto. }
    destruct Hr as [[u Hu] | [u Hu]].
    + unfold urlEntry in Hu.
      destruct (textOf (querySelector [lit "loc"] u)) as [[|c s]|];
        try discriminate.
      injection Hu as <-. simpl.
      repeat split; try discriminate. apply alternatesOf_set.
    + unfold sitemapEntry in Hu.
      destruct (textOf (querySelector [lit "loc"] u)) as [[|c s]|];
        try discriminate.
      injection Hu as <-. simpl. repeat split; discriminate.
  - intros u r Hu. unfold urlEntry in Hu.
    destruct (textOf (querySelector [lit "loc"] u)) as [[|c s]|];
      try discriminate.
    injection Hu as <-. simpl. apply alternatesOf_set.
Qed.

Lemma extractFrom_fields_witness :
  Forall (fun r => lastModified r <> None
                   /\ changeFrequency r <> None
                   /\ priority r <> None
                   /\ alternates r <> Some []) [Samples.sampleRecord]
  /\ (forall u r, urlEntry u = Some r ->
                  (alternates r = None
                   <-> querySelectorAll linkSelector u = [])).
Proof.
  apply (@extractFrom_fields Samples.oneUrl [Samples.sampleRecord]).
  vm_compute. reflexivity.
Defined.

End Records.

(* ================================================================== *)
(** ** Reading the CSV text back *)
(* ================================================================== *)

Section CsvLines.

Lemma split_line (sep : codeunit) (l : jsstring) :
  ~ In sep l -> split sep l = [l].
Proof.
  induction l as [|c l IH]; intros H; [reflexivity|].
  simpl. destruct (N.eqb_spec c sep) as [->|_].
  - exfalso. apply H. now left.
  - rewrite IH; [reflexivity|]. intros Hin. apply H. now right.
Qed.

Lemma split_first_line (sep : codeunit) (l rest : jsstring) :
  ~ In sep l -> split sep (l ++ sep :: rest) = l :: split sep rest.
Proof.
  induction l as [|c l IH]; intros H.
  - simpl. now rewrite N.eqb_refl.
  - simpl. destruct (N.eqb_spec c sep) as [->|_].
    + exfalso. apply H. now left.
    + rewrite IH; [reflexivity|]. intros Hin. apply H. now right.
Qed.

(** Splitting at the separator gives back lines that do not hold it. *)
Lemma split_join (sep : codeunit) (l : jsstring) (ls : list jsstring) :
  Forall (fun l => ~ In sep l) (l :: ls) ->
  split sep (join [sep] (l :: ls)) = l :: ls.
Proof.
  revert l. induction ls as [|l' ls IH]; intros l H.
  - simpl. apply split_line. now inversion H.
  - rewrite join_cons by discriminate.
    inversion H as [|x xs Hl Hrest]; subst.
    change (l ++ [sep] ++ join [sep] (l' :: ls))
      with (l ++ sep :: join [sep] (l' :: ls)).
    rewrite split_first_line by exact Hl.
    f_equal. apply IH. exact Hrest.
Qed.

Lemma rowOf_oneLine (r : SitemapEntry) : oneLine r -> ~ In LF (rowOf r).
Proof.
  unfold oneLine, rowOf. intros (H1 & H2 & H3 & H4 & H5).
  rewrite !in_app_iff. simpl.
  unfold LF, QUOTE in *.
  intuition discriminate.
Qed.

(** X10.  When no field of any record holds a newline, splitting the CSV text
    at the newlines gives the header row and then exactly one line per
    record, in order: the rows can be counted and read back by line. *)
Theorem csvContent_lines (records : list SitemapEntry) :
  Forall oneLine records ->
  split LF (csvContent records) = headerRow :: List.map rowOf records
  /\ length (split LF (csvContent records)) = 1 + length records.
Proof.
  intros H.
  assert (E : split LF (csvContent records) = headerRow :: List.map rowOf records).
  { unfold csvContent.
    replace (join (lit ",") headers) with headerRow by (vm_compute; reflexivity).
    rewrite (map_ext csvRow rowOf csvRow_rowOf).
    apply split_join. constructor.
    - vm_compute. intuition discriminate.
    - apply Forall_map. eapply Forall_impl; [|exact H].
      intros r. apply rowOf_oneLine. }
  split; [exact E|]. rewrite E. simpl. now rewrite length_map.
Qed.

Lemma csvContent_lines_witness :
  split LF (csvContent [Samples.sampleRecord])
  = headerRow :: List.map rowOf [Samples.sampleRecord]
  /\ length (split LF (csvContent [Samples.sampleRecord])) = 1 + 1.
Proof.
  apply (@csvContent_lines [Samples.sampleRecord]).
  repeat constructor; vm_compute; intuition discriminate.
Defined.

End CsvLines.

(* ================================================================== *)
(** ** The page: what a parse leaves behind *)
(* ================================================================== *)

Section PageOutcomes.

Variable xmlParse : jsstring -> ParseResult.

Lemma extractFrom_failures (d : Document) (e : ErrorKind) :
  extractFrom d = Failed e -> e = InvalidXml \/ e = NoUrlsFound.
Proof.
  destruct (docQuerySelector [lit "parsererror"] d) eqn:Hpe.
  - rewrite extractFrom_parsererror by congruence.
    intros H. injection H as <-. now left.
  - rewrite (extractFrom_passes _ Hpe).
    destruct (urlPass d); [destruct (sitemapPass d)|]; try discriminate.
    intros H. injection H as <-. now right.
Qed.

Lemma extractFrom_urls_nonempty (d : Document) (records : list SitemapEntry) :
  extractFrom d = Extracted records -> Forall (fun r => url r <> []) records.
Proof.
  intros H.
  destruct (docQuerySelector [lit "parsererror"] d) eqn:Hpe.
  { rewrite extractFrom_parsererror in H by congruence. discriminate. }
  rewrite (extractFrom_passes _ Hpe) in H.
  apply Forall_forall. intros r Hin.
  destruct (urlPass d) as [|r0 rs] eqn:Hu.
  - destruct (sitemapPass d) as [|s0 ss] eqn:Hs; [discriminate|].
    injection H as <-. rewrite <- Hs, sitemapPass_collected in Hin.
    apply collected_In in Hin. destruct Hin as (el & _ & He).
    now destruct (sitemapEntry_url _ He) as (_ & Hne & _).
  - injection H as <-. rewrite <- Hu, urlPass_collected in Hin.
    apply collected_In in Hin. destruct Hin as (el & _ & He).
    now destruct (urlEntry_url _ He) as (_ & Hne).
Qed.

Lemma message_nonempty (e : ErrorKind) : message e <> [].
Proof. destruct e; discriminate. Qed.

Lemma message_injective (e e' : ErrorKind) : message e = message e' -> e = e'.
Proof. destruct e, e'; intros H; try reflexivity; discriminate. Qed.

(** The read of the file is reached, and rejected, exactly on the upload
    tab with a file whose read rejects. *)
Lemma chosenText_rejected (st : PageState) (reason : Rejection) :
  chosenText st = ReadRejected reason
  <-> activeTab st = lit "upload" /\ file st = Some (Unreadable reason).
Proof.
  unfold chosenText. split.
  - destruct (JsString.eqb (activeTab st) (lit "upload")) eqn:Eu;
      destruct (file st) as [[raw|r]|]; cbn [andb];
      try (destruct (JsString.eqb (activeTab st) (lit "paste")
                     && negb (isEmpty (trim (xmlContent st)))));
      intros H; try discriminate H.
    all: injection H as ->; split; [now apply eqb_eq | reflexivity].
  - intros [H1 H2]. rewrite H1, H2, eqb_refl. reflexivity.
Qed.

Lemma chosenText_nothing (st : PageState) :
  chosenText st = NothingChosen
  <-> (activeTab st <> lit "upload" \/ file st = None)
      /\ (activeTab st <> lit "paste" \/ trim (xmlContent st) = []).
Proof.
  unfold chosenText.
  destruct (JsString.eqb (activeTab st) (lit "upload")) eqn:Eu;
    destruct (JsString.eqb (activeTab st) (lit "paste")) eqn:Ep;
    destruct (file st) as [[raw|r]|]; destruct (trim (xmlContent st)) as [|c t];
    simpl;
    try (apply eqb_eq in Eu); try (apply eqb_eq in Ep);
    try (rewrite Eu in Ep; discriminate);
    (split;
     [ intros H; try discriminate; split;
       solve [ now right
             | left; intros E;
               match goal with
               | Hneq : JsString.eqb _ _ = false |- _ =>
                   rewrite E in Hneq; discriminate
               end ]
     | intros [[H1|H1] [H2|H2]]; try reflexivity; try congruence ]).
Qed.

Lemma run_throws_empty (st : PageState) :
  run xmlParse st = Threw (ThrownError EmptyInput)
  <-> chosenText st = NothingChosen.
Proof.
  unfold run.
  destruct (chosenText st) as [text| |reason]; split;
    try reflexivity; try discriminate.
  destruct (extract xmlParse text) as [urls|e] eqn:E; [discriminate|].
  intros H. injection H as ->. unfold extract in E.
  destruct (extractFrom_failures _ E); discriminate.
Qed.

Lemma run_stored_nonempty (st : PageState) (urls : list SitemapEntry) :
  run xmlParse st = Stored urls ->
  urls <> [] /\ Forall (fun r => url r <> []) urls.
Proof.
  unfold run. destruct (chosenText st) as [text| |reason]; try discriminate.
  destruct (extract xmlParse text) as [urls'|e] eqn:E; [|discriminate].
  intros H. injection H as <-. unfold extract in E. split.
  - intros ->. exact (@extractFrom_not_empty _ E).
  - exact (extractFrom_urls_nonempty _ E).
Qed.

Lemma not_early (st : PageState) :
  file st <> None \/ trim (xmlContent st) <> [] ->
  match file st with Some _ => false | None => true end
  && isEmpty (trim (xmlContent st)) = false.
Proof.
  intros Hin. destruct (file st); [reflexivity|].
  destruct (trim (xmlContent st)); [|reflexivity].
  destruct Hin; congruence.
Qed.

(** X12.  [parseSitemap] never touches the inputs.  Without a file and without
    pasted text it changes nothing.  Otherwise a successful run stores the
    new entries, of which there is at least one, and leaves the error
    empty; a run that throws keeps the entries stored before and stores the
    message the [catch] takes from what was thrown: the non-empty message
    of one of the three errors of the body, or, when the read of the file
    rejects (which needs the upload tab and such a file), the message of
    that rejection. *)
Theorem parseSitemap_effect (st : PageState) :
  (file (parseSitemap xmlParse st) = file st
   /\ xmlContent (parseSitemap xmlParse st) = xmlContent st
   /\ activeTab (parseSitemap xmlParse st) = activeTab st)
  /\ (file st = None -> trim (xmlContent st) = [] ->
      parseSitemap xmlParse st = st)
  /\ (file st <> None \/ trim (xmlContent st) <> [] ->
      (forall urls, run xmlParse st = Stored urls ->
                    sitemapData (parseSitemap xmlParse st) = urls
                    /\ urls <> []
                    /\ error (parseSitemap xmlParse st) = [])
      /\ (forall e, run xmlParse st = Threw (ThrownError e) ->
                    sitemapData (parseSitemap xmlParse st) = sitemapData st
                    /\ error (parseSitemap xmlParse st) = message e
                    /\ error (parseSitemap xmlParse st) <> [])
      /\ (forall reason, run xmlParse st = Threw (ThrownByRead reason) ->
                    sitemapData (parseSitemap xmlParse st) = sitemapData st
                    /\ error (parseSitemap xmlParse st)
                       = caughtMessage (ThrownByRead reason)
                    /\ activeTab st = lit "upload"
                    /\ file st = Some (Unreadable reason))).
Proof.
  unfold parseSitemap. split; [|split].
  - destruct (_ && _); [auto|]. destruct (run xmlParse st); auto.
  - intros Hf Hx. now rewrite Hf, Hx.
  - intros Hin. rewrite (not_early _ Hin). split; [|split].
    + intros urls Hr. rewrite Hr. simpl. split; [reflexivity|].
      split; [|reflexivity]. now destruct (run_stored_nonempty _ Hr).
    + intros e Hr. rewrite Hr. simpl. split; [reflexivity|].
      split; [reflexivity | apply message_nonempty].
    + intros reason Hr. rewrite Hr. cbn [sitemapData error].
      split; [reflexivity|]. split; [reflexivity|].
      apply chosenText_rejected. unfold run in Hr.
      destruct (chosenText st) as [text| |r]; try discriminate.
      * destruct (extract xmlParse text); discriminate.
      * now injection Hr as ->.
Qed.

(** X7.  The same content gives the parser the same text on either tab: the
    text of a file on the upload tab, and that text pasted on the paste
    tab. *)
Theorem same_text_on_both_tabs (x : jsstring)
        (pasted : jsstring) (data data' : list SitemapEntry)
        (err err' : jsstring) :
  trim x <> [] ->
  chosenText (mkState (Some (Readable x)) pasted (lit "upload") data err)
  = ChosenText (cleanXmlContent x)
  /\ chosenText (mkState None x (lit "paste") data' err')
     = ChosenText (cleanXmlContent x).
Proof.
  intros Hx. unfold chosenText. cbn [file activeTab xmlContent].
  rewrite eqb_refl.
  replace (JsString.eqb (lit "paste") (lit "upload")) with false
    by (vm_compute; reflexivity).
  cbn [andb]. split; [reflexivity|].
  destruct (trim x) as [|c t] eqn:E; [congruence|].
  cbn [isEmpty negb]. rewrite <- E. now rewrite cleanXmlContent_trim.
Qed.

End PageOutcomes.

Lemma parseSitemap_effect_witness :
  sitemapData (parseSitemap Samples.rejecting Samples.staleState)
  = sitemapData Samples.staleState
  /\ error (parseSitemap Samples.rejecting Samples.staleState)
     = message InvalidXml
  /\ error (parseSitemap Samples.rejecting Samples.staleState) <> [].
Proof.
  assert (Hin : file Samples.staleState <> None
                \/ trim (xmlContent Samples.staleState) <> []).
  { right. vm_compute. discriminate. }
  assert (Hr : run Samples.rejecting Samples.staleState
               = Threw (ThrownError InvalidXml)).
  { vm_compute. reflexivity. }
  exact (proj1 (proj2 (proj2 (proj2
           (parseSitemap_effect Samples.rejecting Samples.staleState)) Hin))
           InvalidXml Hr).
Defined.

Lemma same_text_on_both_tabs_witness :
  chosenText (mkState (Some (Readable (lit " <urlset/> "))) [] (lit "upload") [] [])
  = ChosenText (cleanXmlContent (lit " <urlset/> "))
  /\ chosenText (mkState None (lit " <urlset/> ") (lit "paste") [] [])
     = ChosenText (cleanXmlContent (lit " <urlset/> ")).
Proof.
  apply (@same_text_on_both_tabs (lit " <urlset/> ") [] [] [] [] []).
  vm_compute. discriminate.
Defined.

(* ================================================================== *)
(** ** The page: sessions and what is shown *)
(* ================================================================== *)

Section Sessions.

Variable xmlParse : jsstring -> ParseResult.




(** X14.  Right after a change to the upload tab or to the paste tab, a click
    on the parse button never reaches the throw of [No content provided]:
    the change has cleared the source of the other tab, so either there
    is no input at all and nothing happens, or the source of the new tab
    is there.  That message is then not shown either, unless the read of
    the file is rejected with an error that carries this very message. *)
Theorem parse_after_tab_change (value : jsstring) (st : PageState) :
  value = lit "upload" \/ value = lit "paste" ->
  (parseSitemap xmlParse (handleTabChange value st) = handleTabChange value st
   \/ run xmlParse (handleTabChange value st) <> Threw (ThrownError EmptyInput))
  /\ ((forall reason, file st = Some (Unreadable reason) ->
                      caughtMessage (ThrownByRead reason) <> message EmptyInput) ->
      error (parseSitemap xmlParse (handleTabChange value st))
      <> message EmptyInput).
Proof.
  intros Hv.
  assert (Hrun : parseSitemap xmlParse (handleTabChange value st)
                 = handleTabChange value st
                 \/ run xmlParse (handleTabChange value st)
                    <> Threw (ThrownError EmptyInput)).
  { destruct (file (handleTabChange value st)) as [f|] eqn:Hf;
      [|destruct (trim (xmlContent (handleTabChange value st))) as [|c t] eqn:Hx].
    - right. rewrite run_throws_empty, chosenText_nothing.
      intros [[H|H] _]; [|congruence].
      destruct Hv as [-> | ->].
      + apply H. unfold handleTabChange. now rewrite eqb_refl.
      + unfold handleTabChange in Hf.
        replace (JsString.eqb (lit "paste") (lit "upload")) with false in Hf
          by (vm_compute; reflexivity).
        discriminate.
    - left. unfold parseSitemap. now rewrite Hf, Hx.
    - right. rewrite run_throws_empty, chosenText_nothing.
      intros [_ [H|H]]; [|congruence].
      destruct Hv as [-> | ->].
      + unfold handleTabChange in Hx. rewrite eqb_refl in Hx. discriminate.
      + apply H. unfold handleTabChange.
        replace (JsString.eqb (lit "paste") (lit "upload")) with false
          by (vm_compute; reflexivity).
        reflexivity. }
  split; [exact Hrun|]. intros Hread.
  destruct Hrun as [E | Hne].
  - rewrite E. unfold handleTabChange.
    destruct (JsString.eqb value (lit "upload")); discriminate.
  - unfold parseSitemap. destruct (_ && _).
    + unfold handleTabChange.
      destruct (JsString.eqb value (lit "upload")); discriminate.
    + destruct (run xmlParse (handleTabChange value st))
        as [urls|[e|reason]] eqn:Er; cbn [error].
      * discriminate.
      * cbn [caughtMessage]. intros H. apply message_injective in H. congruence.
      * apply Hread.
        assert (Hc : chosenText (handleTabChange value st) = ReadRejected reason).
        { unfold run in Er.
          destruct (chosenText (handleTabChange value st)) as [text| |r];
            try discriminate.
          - destruct (extract xmlParse text); discriminate.
          - now injection Er as ->. }
        apply chosenText_rejected in Hc. destruct Hc as [_ Hc].
        unfold handleTabChange in Hc.
        destruct (JsString.eqb value (lit "upload")); [exact Hc | discriminate].
Qed.

(** Choosing a file and changing the tab clear what is shown: no error,
    no results, and so no download.  Closing the file dialog without a
    file changes nothing. *)
Theorem new_input_clears_page (st : PageState) :
  (forall f, errorVisible (handleFileChange (Some f) st) = false
             /\ resultsVisible (handleFileChange (Some f) st) = false
             /\ downloadCSV (sitemapData (handleFileChange (Some f) st)) = None
             /\ file (handleFileChange (Some f) st) = Some f)
  /\ (forall value, errorVisible (handleTabChange value st) = false
                    /\ resultsVisible (handleTabChange value st) = false
                    /\ downloadCSV (sitemapData (handleTabChange value st)) = None
                    /\ activeTab (handleTabChange value st) = value
                    /\ (file (handleTabChange value st) = None
                        \/ xmlContent (handleTabChange value st) = []))
  /\ handleFileChange None st = st.
Proof.
  split; [|split; [|reflexivity]].
  - intros f. repeat split.
  - intros value. unfold handleTabChange.
    destruct (JsString.eqb value (lit "upload")); simpl;
      repeat split; auto.
Qed.

(** X15.  The results panel, which holds the download button, is rendered
    exactly when [downloadCSV] has something to download, so the button
    never runs into the early return; and after a successful run the panel
    is there, the error alert is not, and the download is the CSV text of
    the entries just found. *)
Theorem download_follows_results (st : PageState) :
  (resultsVisible st = true
   <-> downloadCSV (sitemapData st) = Some (toCsv (sitemapData st)))
  /\ (resultsVisible st = false <-> downloadCSV (sitemapData st) = None)
  /\ (forall urls,
         file st <> None \/ trim (xmlContent st) <> [] ->
         run xmlParse st = Stored urls ->
         resultsVisible (parseSitemap xmlParse st) = true
         /\ errorVisible (parseSitemap xmlParse st) = false
         /\ downloadCSV (sitemapData (parseSitemap xmlParse st))
            = Some (toCsv urls)).
Proof.
  assert (Hshape : forall data,
             ((0 <? length data) = true <-> downloadCSV data = Some (toCsv data))
             /\ ((0 <? length data) = false <-> downloadCSV data = None)).
  { intros data. unfold downloadCSV. destruct data as [|r rs]; simpl.
    - split; split; (discriminate || reflexivity).
    - change (csvContent (r :: rs)) with (csvContent (r :: rs)).
      rewrite csvContent_toCsv.
      split; split; (discriminate || reflexivity). }
  split; [apply Hshape|]. split; [apply Hshape|].
  intros urls Hin Hr. unfold parseSitemap.
  rewrite (not_early _ Hin), Hr. unfold resultsVisible, errorVisible. simpl.
  destruct (run_stored_nonempty _ _ Hr) as [Hne _].
  destruct urls as [|r rs]; [congruence|].
  split; [reflexivity|]. split; [reflexivity|].
  apply Hshape. reflexivity.
Qed.

End Sessions.

Section Preview.

(** X16.  The preview table shows the first hundred entries in order; it shows
    every entry exactly when the notice about further entries is not
    rendered, and exactly a hundred of them when it is. *)
Theorem preview_and_notice (sitemapData : list SitemapEntry) :
  sitemapData = previewRows sitemapData ++ skipn 100 sitemapData
  /\ length (previewRows sitemapData) = Nat.min 100 (length sitemapData)
  /\ (moreNoticeVisible sitemapData = false
      <-> previewRows sitemapData = sitemapData)
  /\ (moreNoticeVisible sitemapData = true
      -> length (previewRows sitemapData) = 100
         /\ skipn 100 sitemapData <> []).
Proof.
  unfold previewRows, moreNoticeVisible.
  split; [symmetry; apply firstn_skipn|].
  split; [apply length_firstn|].
  split; [split|].
  - intros H. apply Nat.ltb_ge in H. now apply firstn_all2.
  - intros H. apply Nat.ltb_ge.
    pose proof (length_firstn 100 sitemapData) as L. rewrite H in L. lia.
  - intros H. apply Nat.ltb_lt in H. split.
    + rewrite length_firstn. lia.
    + intros E. apply (f_equal (@length _)) in E.
      rewrite length_skipn in E. simpl in E. lia.
Qed.

End Preview.

(* ================================================================== *)
(** ** The favicon follows the last call *)
(* ================================================================== *)

Section FaviconFacts.

Lemma settled_settled (b b' : bool) (m : FaviconManager) :
  settled b' (settled b m) = settled b' m.
Proof. unfold settled. simpl. now destruct (currentFavicon m). Qed.

Lemma call_settles (c : Call) (m : FaviconManager) :
  (isProcessing m = true -> iconShowsState m) ->
  call c m = settled (isStart c) m.
Proof.
  intros H. destruct m as [[href|] frame [|]]; destruct c; try reflexivity.
  - unfold iconShowsState in H. simpl in H. rewrite (H eq_refl). reflexivity.
Qed.

Lemma settled_shows (b : bool) (m : FaviconManager) :
  iconShowsState (settled b m).
Proof.
  unfold iconShowsState, settled. simpl. now destruct (currentFavicon m).
Qed.

Lemma last_default (A : Type) (l : list A) :
  forall x d d', last (x :: l) d = last (x :: l) d'.
Proof.
  induction l as [|y l IH]; intros x d d'; [reflexivity|].
  change (last (y :: l) d = last (y :: l) d'). apply IH.
Qed.

Lemma last_cons_default (A : Type) (l : list A) (x d : A) :
  last (x :: l) d = last l x.
Proof.
  destruct l as [|y l]; [reflexivity|].
  change (last (y :: l) d = last (y :: l) x). apply last_default.
Qed.

Lemma calls_settle (cs : list Call) :
  forall (c : Call) (m : FaviconManager),
    (isProcessing m = true -> iconShowsState m) ->
    calls (c :: cs) m = settled (isStart (last cs c)) m.
Proof.
  unfold calls. induction cs as [|c' cs IH]; intros c m H.
  - simpl. now apply call_settles.
  - change (fold_left (fun m c => call c m) (c :: c' :: cs) m)
      with (fold_left (fun m c => call c m) (c' :: cs) (call c m)).
    rewrite (@call_settles c m H).
    rewrite IH by (intros _; apply settled_shows).
    rewrite settled_settled.
    now rewrite last_cons_default.
Qed.

(** X17.  After any calls of [startSimpleProcessing] and [stopSimpleProcessing]
    on a fresh manager, one at least, only the last call counts: the flag
    is set exactly when it was a start, and the icon link, where there is
    one, points to the processing icon then and to the original icon
    otherwise.  Repeated starts and repeated stops change nothing, and no
    animation frame is ever pending. *)
Theorem favicon_follows_last_call (env : option (option jsstring))
        (c : Call) (cs : list Call) :
  calls (c :: cs) (construct env)
  = settled (isStart (last cs c)) (construct env)
  /\ iconShowsState (calls (c :: cs) (construct env))
  /\ isProcessing (calls (c :: cs) (construct env)) = isStart (last cs c)
  /\ animationFrame (calls (c :: cs) (construct env)) = None.
Proof.
  assert (E : calls (c :: cs) (construct env)
              = settled (isStart (last cs c)) (construct env)).
  { apply calls_settle. destruct env as [[h|]|]; discriminate. }
  rewrite E. split; [reflexivity|]. split; [apply settled_shows|].
  split; [reflexivity|].
  destruct env as [[h|]|]; reflexivity.
Qed.

End FaviconFacts.

Lemma parse_after_tab_change_witness :
  (parseSitemap Samples.rejecting
                (handleTabChange (lit "upload") Samples.unreadableState)
   = handleTabChange (lit "upload") Samples.unreadableState
   \/ run Samples.rejecting
          (handleTabChange (lit "upload") Samples.unreadableState)
      <> Threw (ThrownError EmptyInput))
  /\ error (parseSitemap Samples.rejecting
                         (handleTabChange (lit "upload") Samples.unreadableState))
     <> message EmptyInput.
Proof.
  destruct (parse_after_tab_change Samples.rejecting Samples.unreadableState
                                   (or_introl eq_refl)) as [H1 H2].
  split; [exact H1|]. apply H2.
  intros reason H. injection H as <-. vm_compute. discriminate.
Defined.

Lemma download_follows_results_witness :
  resultsVisible (parseSitemap Samples.accepting Samples.pastedState) = true
  /\ errorVisible (parseSitemap Samples.accepting Samples.pastedState) = false
  /\ downloadCSV (sitemapData (parseSitemap Samples.accepting Samples.pastedState))
     = Some (toCsv [Samples.sampleRecord]).
Proof.
  assert (Hin : file Samples.pastedState <> None
                \/ trim (xmlContent Samples.pastedState) <> []).
  { right. vm_compute. discriminate. }
  assert (Hr : run Samples.accepting Samples.pastedState
               = Stored [Samples.sampleRecord]).
  { vm_compute. reflexivity. }
  exact (proj2 (proj2
           (download_follows_results Samples.accepting Samples.pastedState))
           [Samples.sampleRecord] Hin Hr).
Defined.
